(** * tcg-timer: the timer board of [src/App.tsx]

    A shallow embedding of the countdown-timer core of the board: the clock
    formatter, the tick, the store and the manual controls of a timer card,
    the milestone detector with its [lastSeen] table, the normalisation
    applied to the timers restored from local storage, the choice of what the
    board shows, and the queue of the speech hook.

    Numbers.  A JavaScript [number] is modelled by an exact rational ([Q]);
    [NaN] and the infinities have no counterpart.  [Math.floor] and
    [Math.ceil] are [Qfloor] and [Qceiling]; an integer result is kept in
    [Z].  The arithmetic of the model is exact.  That of the code is exact
    too on whole numbers of magnitude up to 2^53, in comparisons, in
    [Math.min] and [Math.max], and, below 2^53 seconds, when the tick takes
    one second off; a product or a sum of numbers that are not whole is
    rounded by the code.
    Statements that rest on such a product or sum being exact are made for
    whole numbers ([double_int]), and the clock is specified below 2^53
    seconds. *)

From Stdlib Require Import ZArith QArith Qminmax Qround Lia Lqa Ascii String.
From stdpp Require Import base decidable option list strings pretty gmap.

Local Open Scope Z_scope.

(** ** Types *)

Inductive TimerStatus : Type := RUNNING | PAUSED | FINISHED.

#[global] Instance TimerStatus_eq_dec : EqDecision TimerStatus.
Proof. solve_decision. Defined.

(** [type GameTimer].  [icon] and [pinned] are optional in the source. *)
Record GameTimer : Type := mkTimer {
  id : string;
  game : string;
  icon : option string;
  durationSec : Q;
  remainingSec : Q;
  status : TimerStatus;
  announceAt : list Q;
  pinned : option bool
}.

(** ** Utilities: [pad] and [formatHHMMSS] *)

Fixpoint repeat_char (n : nat) (c : ascii) : string :=
  match n with
  | O => EmptyString
  | S k => String c (repeat_char k c)
  end.

(** [s.padStart(targetLength, c)] for a one-character filler: a string that
    is already long enough is returned as it is. *)
Definition padStart (s : string) (targetLength : nat) (c : ascii) : string :=
  repeat_char (targetLength - String.length s) c +:+ s.

(** [String(n)] for an integer [n]: its decimal numeral. *)
Definition String_of (n : Z) : string := pretty n.

(** [const pad = (n) => String(n).padStart(2, "0")] *)
Definition pad (n : Z) : string := padStart (String_of n) 2 "0".

(** [formatHHMMSS].  [s] is a non-negative integer, so [Math.floor (s / 3600)]
    and [s % 3600] are [Z.div] and [Z.modulo].  This is the arithmetic of the
    code below 2^53 seconds; far above, the division of the code is rounded
    before it is floored, and [String(n)] turns to exponent notation. *)
Definition formatHHMMSS (totalSeconds : Q) : string :=
  let s := Z.max 0 (Qfloor totalSeconds) in
  let h := s / 3600 in
  let m := (s mod 3600) / 60 in
  let sec := s mod 60 in
  if 0 <? h
  then pad h +:+ ":" +:+ pad m +:+ ":" +:+ pad sec
  else pad m +:+ ":" +:+ pad sec.

(** ** Ticking

    The interval callback of [TimerBoard]; [tickRateMs] is the fixed constant
    of the component, so one tick takes [tickRateMs / 1000] seconds off. *)

Definition tickRateMs : Q := 1000.

Definition tick_timer (tm : GameTimer) : GameTimer :=
  if bool_decide (status tm <> RUNNING) then tm
  else
    let next := Qmax 0 (remainingSec tm - tickRateMs / 1000) in
    {| id := id tm; game := game tm; icon := icon tm;
       durationSec := durationSec tm;
       remainingSec := next;
       status := if Qle_bool next 0 then FINISHED else status tm;
       announceAt := announceAt tm; pinned := pinned tm |}.

Definition tick (prev : list GameTimer) : list GameTimer := map tick_timer prev.

(** ** The store: [addTimer], [updateTimer], [removeTimer] *)

(** [Partial<GameTimer>]: every field may be left out. *)
Record Patch : Type := mkPatch {
  p_id : option string;
  p_game : option string;
  p_icon : option string;
  p_durationSec : option Q;
  p_remainingSec : option Q;
  p_status : option TimerStatus;
  p_announceAt : option (list Q);
  p_pinned : option bool
}.

Definition over {A : Type} (old : A) (new : option A) : A :=
  match new with Some a => a | None => old end.

Definition over_opt {A : Type} (old new : option A) : option A :=
  match new with Some a => Some a | None => old end.

(** [{ ...x, ...patch }] *)
Definition merge (x : GameTimer) (patch : Patch) : GameTimer :=
  {| id := over (id x) (p_id patch);
     game := over (game x) (p_game patch);
     icon := over_opt (icon x) (p_icon patch);
     durationSec := over (durationSec x) (p_durationSec patch);
     remainingSec := over (remainingSec x) (p_remainingSec patch);
     status := over (status x) (p_status patch);
     announceAt := over (announceAt x) (p_announceAt patch);
     pinned := over_opt (pinned x) (p_pinned patch) |}.

Definition updateTimer (t : list GameTimer) (i : string) (patch : Patch)
  : list GameTimer :=
  map (fun x => if bool_decide (id x = i) then merge x patch else x) t.

(** [addTimer(preset)]: [new_id] stands for [crypto.randomUUID()]; the
    three arguments are the optional fields of the preset.  The product
    [minutes * 60] is the one of the code for whole minutes; for minutes with
    a fraction the code rounds it. *)
Definition addTimer (new_id : string)
    (preset_game preset_icon : option string) (preset_minutes : option Q)
    (t : list GameTimer) : list GameTimer :=
  let duration := (over 50 preset_minutes * 60)%Q in
  t ++ [ {| id := new_id;
            game := match preset_game with
                    | Some g => if bool_decide (g = "") then "Untitled Game" else g
                    | None => "Untitled Game"
                    end;
            icon := preset_icon;
            durationSec := duration;
            remainingSec := duration;
            status := PAUSED;
            announceAt := [300; 120]%Q;
            pinned := Some false |} ].

(** ** The controls of a [TimerCard]

    Each handler builds its patch from the timer the card shows. *)

Definition startPausePatch (timer : GameTimer) : Patch :=
  {| p_id := None; p_game := None; p_icon := None; p_durationSec := None;
     p_remainingSec := None;
     p_status := Some (if bool_decide (status timer = RUNNING) then PAUSED else RUNNING);
     p_announceAt := None; p_pinned := None |}.

Definition resetPatch (timer : GameTimer) : Patch :=
  {| p_id := None; p_game := None; p_icon := None; p_durationSec := None;
     p_remainingSec := Some (durationSec timer);
     p_status := Some PAUSED;
     p_announceAt := None; p_pinned := None |}.

Definition minusMinutePatch (timer : GameTimer) : Patch :=
  {| p_id := None; p_game := None; p_icon := None; p_durationSec := None;
     p_remainingSec := Some (Qmax 0 (remainingSec timer - 60));
     p_status := None; p_announceAt := None; p_pinned := None |}.

(** The sum is the one of the code on whole seconds; on seconds with a
    fraction the code rounds it. *)
Definition plusMinutePatch (timer : GameTimer) : Patch :=
  {| p_id := None; p_game := None; p_icon := None; p_durationSec := None;
     p_remainingSec := Some (remainingSec timer + 60)%Q;
     p_status := None; p_announceAt := None; p_pinned := None |}.

(** [Number(e.target.value) || 1]: the argument is the number the text of
    the field denotes, [None] when it denotes none (NaN). *)
Definition number_or_one (value : option Q) : Q :=
  match value with
  | Some n => if Qeq_bool n 0 then 1 else n
  | None => 1
  end.

(** The product [mins * 60] is the one of the code for whole minutes; for
    minutes with a fraction above 1 the code rounds it. *)
Definition minutesPatch (timer : GameTimer) (value : option Q) : Patch :=
  let mins := Qmax 1 (number_or_one value) in
  let durationSec' := (mins * 60)%Q in
  let remainingSec' := Qmin (remainingSec timer) durationSec' in
  {| p_id := None; p_game := None; p_icon := None;
     p_durationSec := Some durationSec';
     p_remainingSec := Some remainingSec';
     p_status := None; p_announceAt := None; p_pinned := None |}.

(** The entries of the comma-separated list, each already through
    [Number(x.trim())]; [None] is NaN. *)
Definition keep_minutes (entries : list (option Q)) : list Q :=
  omap (fun x => match x with
                 | Some m => if Qle_bool 0 m then Some m else None
                 | None => None
                 end) entries.

Definition announcePatch (entries : list (option Q)) : Patch :=
  let mins := keep_minutes entries in
  {| p_id := None; p_game := None; p_icon := None; p_durationSec := None;
     p_remainingSec := None; p_status := None;
     p_announceAt := Some (map (fun m => m * 60)%Q mins);
     p_pinned := None |}.

Definition pinPatch (timer : GameTimer) : Patch :=
  {| p_id := None; p_game := None; p_icon := None; p_durationSec := None;
     p_remainingSec := None; p_status := None; p_announceAt := None;
     p_pinned := Some (negb (default false (pinned timer))) |}.

(** What a user can do on one card, and the tick. *)
Inductive Op : Type :=
  | OpTick
  | OpStartPause
  | OpReset
  | OpMinusMinute
  | OpPlusMinute
  | OpMinutes (value : option Q)
  | OpAnnounce (entries : list (option Q))
  | OpPin.

Definition apply_op (o : Op) (tm : GameTimer) : GameTimer :=
  match o with
  | OpTick => tick_timer tm
  | OpStartPause => merge tm (startPausePatch tm)
  | OpReset => merge tm (resetPatch tm)
  | OpMinusMinute => merge tm (minusMinutePatch tm)
  | OpPlusMinute => merge tm (plusMinutePatch tm)
  | OpMinutes v => merge tm (minutesPatch tm v)
  | OpAnnounce e => merge tm (announcePatch e)
  | OpPin => merge tm (pinPatch tm)
  end.

(** The data-model invariant on one timer. *)
Definition in_range (tm : GameTimer) : Prop :=
  (0 <= remainingSec tm /\ remainingSec tm <= durationSec tm)%Q.

(** ** The milestone detector

    The effect that runs after every change of [timers].  [lastSeen] is the
    ref [lastSeen.current : Record<string, number>]; a key that was never
    written reads [undefined], which differs from every number.  The values
    written are [-1] and results of [Math.ceil], hence integers.

    A notification stands for the block the source runs at a milestone: the
    clip or the spoken phrase, and the overlay outside display mode. *)

Inductive Notification : Type :=
  | Finished (timer_id : string)
  | Threshold (timer_id : string) (remaining : Z).


Definition notification_id (n : Notification) : string :=
  match n with
  | Finished i => i
  | Threshold i _ => i
  end.

(** [arr.includes(x)] on an array of numbers. *)
Definition includes (arr : list Q) (x : Q) : bool :=
  existsb (fun a => Qeq_bool a x) arr.

Definition detect_timer (seen : gmap string Z) (tm : GameTimer)
  : list Notification * gmap string Z :=
  if bool_decide (status tm = FINISHED) then
    if bool_decide (seen !! id tm <> Some (-1))
    then ([Finished (id tm)], <[id tm := -1]> seen)
    else ([], seen)
  else
    let prev := seen !! id tm in
    let remaining := Qceiling (remainingSec tm) in
    (if includes (announceAt tm) (inject_Z remaining)
        && bool_decide (prev <> Some remaining)
     then [Threshold (id tm) remaining]
     else [],
     <[id tm := remaining]> seen).

(** [timers.forEach(...)]: the timers in order, one table for all. *)
Fixpoint detect (seen : gmap string Z) (timers : list GameTimer)
  : list Notification * gmap string Z :=
  match timers with
  | [] => ([], seen)
  | tm :: rest =>
      let '(out1, seen1) := detect_timer seen tm in
      let '(out2, seen2) := detect seen1 rest in
      (out1 ++ out2, seen2)
  end.

(** The board: the timers and the detector's table. *)
Record Board : Type := mkBoard {
  timers : list GameTimer;
  lastSeen : gmap string Z
}.

Definition detector_pass (b : Board) : list Notification * Board :=
  let '(out, seen) := detect (lastSeen b) (timers b) in
  (out, {| timers := timers b; lastSeen := seen |}).

(** One tick and the detector pass it triggers. *)
Definition tick_round (b : Board) : list Notification * Board :=
  detector_pass {| timers := tick (timers b); lastSeen := lastSeen b |}.

(** [n] ticks in a row; the notifications of all the passes, in order. *)
Fixpoint tick_rounds (n : nat) (b : Board) : list Notification * Board :=
  match n with
  | O => ([], b)
  | S k =>
      let '(out1, b1) := tick_round b in
      let '(out2, b2) := tick_rounds k b1 in
      (out1 ++ out2, b2)
  end.

Definition removeTimer (i : string) (b : Board) : Board :=
  {| timers := filter (fun x => id x <> i) (timers b);
     lastSeen := delete i (lastSeen b) |}.

(** The notifications of a list that concern timer [i]. *)
Definition about (i : string) (out : list Notification) : list Notification :=
  filter (fun n => notification_id n = i) out.

(** ** Restoring the timers from local storage

    [usePersistentTimers] reads [JSON.parse(raw) as any[]].  A stored value
    is modelled as the loader's tests see it. *)

Inductive stored_value : Type :=
  | SNull
  | SBool (b : bool)
  | SNum (q : Q)
  | SStr (s : string)
  | SNumArray (items : list Q)
  | SObject.

Definition truthy (v : option stored_value) : bool :=
  match v with
  | None | Some SNull => false
  | Some (SBool b) => b
  | Some (SNum q) => negb (Qeq_bool q 0)
  | Some (SStr s) => negb (bool_decide (s = ""))
  | Some (SNumArray _) | Some SObject => true
  end.

(** One record of the stored array, through the fields the loader reads;
    [None] is a field that is not there.  The fields the loader puts to a
    type test hold any stored value.  [id], [game] and [icon], which it
    passes on when truthy, and the legacy [minutes], which it multiplies,
    are taken at the type the board writes them with.  The loader reads
    [minutes] only when [durationSec] is not a number; a record whose
    [minutes] is then a truthy value that is not a number (for which the
    product can be NaN) is not in this type. *)
Record StoredTimer : Type := mkStored {
  st_id : option string;
  st_game : option string;
  st_icon : option string;
  st_durationSec : option stored_value;
  st_remainingSec : option stored_value;
  st_minutes : option Q;
  st_status : option stored_value;
  st_announceAt : option stored_value;
  st_pinned : option stored_value
}.

(** [s || fallback] on an optional string *)
Definition or_else (s : option string) (fallback : string) : string :=
  match s with
  | Some x => if bool_decide (x = "") then fallback else x
  | None => fallback
  end.

Definition default_icon : string := "🎮".

Section Restore.

(** The fresh identifier made for the record at index [i]:
    [crypto.randomUUID()], or [`${Date.now()}_${i}`] without it. *)
Variable fresh_id : nat -> string.

Definition normalize (i : nat) (t : StoredTimer) : GameTimer :=
  let id' := or_else (st_id t) (fresh_id i) in
  let durationSec' :=
    match st_durationSec t with
    | Some (SNum d) => d
    | _ => Qmax 60 (match st_minutes t with
                    | Some m => if Qeq_bool m 0 then 3000 else (m * 60)%Q
                    | None => 3000
                    end)
    end in
  let remainingSec' :=
    Qmin durationSec' (match st_remainingSec t with
                       | Some (SNum r) => r
                       | _ => durationSec'
                       end) in
  let status' :=
    match st_status t with
    | Some (SStr s) =>
        if bool_decide (s = "RUNNING") then RUNNING
        else if bool_decide (s = "FINISHED") then FINISHED
        else PAUSED
    | _ => PAUSED
    end in
  let announceAt' :=
    match st_announceAt t with
    | Some (SNumArray a) => a
    | _ => [300; 120]%Q
    end in
  {| id := id';
     game := or_else (st_game t) "Untitled Game";
     icon := Some (or_else (st_icon t) default_icon);
     durationSec := durationSec';
     remainingSec := remainingSec';
     status := status';
     announceAt := announceAt';
     pinned := Some (truthy (st_pinned t)) |}.

(** The initial state of [timers].  [None]: nothing is stored under the
    key, or what is stored makes [JSON.parse] or the [map] throw (it is not
    JSON, not an array, or has a [null] record); the loader then starts from
    no timers. *)
Definition restore (parsed : option (list StoredTimer)) : list GameTimer :=
  match parsed with
  | None => []
  | Some records => imap normalize records
  end.

End Restore.

Definition status_name (s : TimerStatus) : string :=
  match s with
  | RUNNING => "RUNNING"
  | PAUSED => "PAUSED"
  | FINISHED => "FINISHED"
  end.

(** What [JSON.stringify] writes for a timer and [JSON.parse] reads back:
    a field that is [undefined] is left out. *)
Definition stored (tm : GameTimer) : StoredTimer :=
  {| st_id := Some (id tm);
     st_game := Some (game tm);
     st_icon := icon tm;
     st_durationSec := Some (SNum (durationSec tm));
     st_remainingSec := Some (SNum (remainingSec tm));
     st_minutes := None;
     st_status := Some (SStr (status_name (status tm)));
     st_announceAt := Some (SNumArray (announceAt tm));
     st_pinned := SBool <$> pinned tm |}.

(** ** The clock as the specification words it *)

Definition digit (n : Z) : ascii :=
  ascii_of_nat (48 + Z.to_nat n).

(** A field of exactly two decimal digits. *)
Definition two_digits (n : Z) : string :=
  String (digit (n / 10)) (String (digit (n mod 10)) EmptyString).

Definition is_digit (c : ascii) : bool :=
  let n := nat_of_ascii c in (48 <=? n)%nat && (n <=? 57)%nat.

Fixpoint split_on (sep : ascii) (s : string) : list string :=
  match s with
  | EmptyString => [EmptyString]
  | String c rest =>
      if bool_decide (c = sep) then EmptyString :: split_on sep rest
      else match split_on sep rest with
           | f :: fs => String c f :: fs
           | [] => [String c EmptyString]
           end
  end.

Definition two_digit_field (f : string) : bool :=
  match f with
  | String a (String b EmptyString) => is_digit a && is_digit b
  | _ => false
  end.

(** [MM:SS] or [HH:MM:SS], every field of two digits. *)
Definition two_digit_clock (s : string) : bool :=
  let fields := split_on ":" s in
  forallb two_digit_field fields
  && (bool_decide (length fields = 2%nat) || bool_decide (length fields = 3%nat)).

(** ** What the board shows

    [running], [pinned], [source], [displayList] and [count] of [TimerBoard],
    and the choice between its three renderings. *)

Definition unfinished (t : GameTimer) : bool :=
  negb (bool_decide (status t = FINISHED)).

(** [t.pinned] as a condition: a missing flag counts as false. *)
Definition is_pinned (t : GameTimer) : bool := default false (pinned t).

Definition running (timers : list GameTimer) : list GameTimer :=
  List.filter unfinished timers.

Definition pinned_unfinished (timers : list GameTimer) : list GameTimer :=
  List.filter (fun t => is_pinned t && unfinished t) timers.

Definition source (timers : list GameTimer) : list GameTimer :=
  if negb (length (pinned_unfinished timers) =? 0)%nat then pinned_unfinished timers
  else if negb (length (running timers) =? 0)%nat then running timers
  else timers.

Definition displayList (displayMode : bool) (timers : list GameTimer)
  : list GameTimer :=
  if displayMode then take 4 (source timers) else timers.

(** [a || b] on numbers *)
Definition nat_or (a b : nat) : nat := if (a =? 0)%nat then b else a.

Definition count (displayMode : bool) (timers : list GameTimer) : nat :=
  if displayMode then length (displayList displayMode timers)
  else nat_or (length (running timers)) (nat_or (length timers) 1).

(** The three [return]s of [TimerBoard]: the single display shows
    [displayList[0]], the wall shows the list, the admin view all timers. *)
Inductive View : Type :=
  | SingleDisplay (tm : option GameTimer)
  | WallDisplay (shown : list GameTimer)
  | AdminView (cards : list GameTimer).

Definition view (displayMode : bool) (timers : list GameTimer) : View :=
  if displayMode && (count displayMode timers =? 1)%nat
  then SingleDisplay (displayList displayMode timers !! 0%nat)
  else if displayMode && (2 <=? count displayMode timers)%nat
  then WallDisplay (displayList displayMode timers)
  else AdminView timers.

(** [DisplayWall]: where each timer of the list goes. *)
Inductive Position : Type := L | R | TL | TR | BL | BR.

#[global] Instance Position_eq_dec : EqDecision Position.
Proof. solve_decision. Defined.

Definition positions (n : nat) : list Position :=
  if (n =? 2)%nat then [L; R]
  else if (n =? 3)%nat then [TL; TR; BL]
  else [TL; TR; BL; BR].

(** The tiles of the wall: timer [i] of the list with [pos[i]], which is
    [undefined] beyond the end of [pos]. *)
Definition wall_tiles (shown : list GameTimer) : list (GameTimer * option Position) :=
  let pos := positions (Nat.min 4 (length shown)) in
  imap (fun i tm => (tm, pos !! i)) shown.

(** ** The speech queue of [useSpeech]

    [queue] and [speaking] are the two refs; [enabled] is the hook's argument.
    The interval exists only while [enabled]; each of its runs is a [Poll].
    [Ended] is the utterance's [onend].  The voice given to an utterance is
    left out. *)

Record Speech : Type := mkSpeech {
  enabled : bool;
  queue : list string;
  speaking : bool
}.

(** The function the hook returns: [speak(text)]. *)
Definition speak (text : string) (s : Speech) : Speech :=
  if enabled s then
    {| enabled := enabled s; queue := queue s ++ [text]; speaking := speaking s |}
  else s.

(** One run of the interval callback: the text handed to
    [speechSynthesis.speak], if any, and the state after it. *)
Definition poll (s : Speech) : option string * Speech :=
  if negb (enabled s) then (None, s)
  else if speaking s then (None, s)
  else
    match queue s with
    | [] => (None, s)
    | next :: rest =>
        if bool_decide (next = "")
        then (None, {| enabled := enabled s; queue := rest; speaking := speaking s |})
        else (Some next, {| enabled := enabled s; queue := rest; speaking := true |})
    end.

Definition utterance_ended (s : Speech) : Speech :=
  {| enabled := enabled s; queue := queue s; speaking := false |}.

Definition set_enabled (b : bool) (s : Speech) : Speech :=
  {| enabled := b; queue := queue s; speaking := speaking s |}.

Inductive SpeechEvent : Type :=
  | Say (text : string)
  | Poll
  | Ended
  | SetEnabled (b : bool).

(** What the speech engine is asked to do, in order. *)
Inductive SpeechMark : Type :=
  | Started (text : string)
  | Stopped.

Definition speech_step (e : SpeechEvent) (s : Speech) : list SpeechMark * Speech :=
  match e with
  | Say text => ([], speak text s)
  | Poll =>
      match poll s with
      | (Some text, s') => ([Started text], s')
      | (None, s') => ([], s')
      end
  | Ended => ([Stopped], utterance_ended s)
  | SetEnabled b => ([], set_enabled b s)
  end.

Fixpoint speech_run (events : list SpeechEvent) (s : Speech)
  : list SpeechMark * Speech :=
  match events with
  | [] => ([], s)
  | e :: rest =>
      let '(m1, s1) := speech_step e s in
      let '(m2, s2) := speech_run rest s1 in
      (m1 ++ m2, s2)
  end.

(** ** Notions used in the statements *)

(** 2^53: the whole numbers up to this magnitude are doubles, and their sums
    and products within it are computed exactly by the code. *)
Definition exact_limit : Z := 9007199254740992.

(** A whole number that a double holds exactly. *)
Definition double_int (x : Q) : Prop :=
  exists z : Z, (x == inject_Z z)%Q /\ - exact_limit <= z <= exact_limit.

(** Two timers that differ at most in [remainingSec] and [status]. *)
Definition same_settings (a b : GameTimer) : Prop :=
  id a = id b /\ game a = game b /\ icon a = icon b /\
  durationSec a = durationSec b /\ announceAt a = announceAt b /\
  pinned a = pinned b.


(** [typeof v === 'number'] on a field that may be missing. *)
Definition is_number (v : option stored_value) : bool :=
  match v with
  | Some (SNum _) => true
  | _ => false
  end.


(** A sequence of operations on one timer, first to last. *)
Definition apply_ops (ops : list Op) (tm : GameTimer) : GameTimer :=
  fold_left (fun t o => apply_op o t) ops tm.



(** A click on a control of the card that shows [timer]: the update with
    the patch of the control, and the detector pass the change triggers. *)
Definition click (patch : Patch) (timer : GameTimer) (b : Board)
  : list Notification * Board :=
  detector_pass {| timers := updateTimer (timers b) (id timer) patch;
                   lastSeen := lastSeen b |}.

(** [addTimer] on a board. *)
Definition board_add (new_id : string) (preset_game preset_icon : option string)
    (preset_minutes : option Q) (b : Board) : Board :=
  {| timers := addTimer new_id preset_game preset_icon preset_minutes (timers b);
     lastSeen := lastSeen b |}.

(** The texts that [speak] takes in during a run of events: those said
    while the hook is enabled. *)
Fixpoint accepted (en : bool) (events : list SpeechEvent) : list string :=
  match events with
  | [] => []
  | Say text :: rest => (if en then [text] else []) ++ accepted en rest
  | SetEnabled b :: rest => accepted b rest
  | _ :: rest => accepted en rest
  end.

Definition nonempty (texts : list string) : list string :=
  List.filter (fun t => negb (bool_decide (t = ""))) texts.

(** The texts of the utterances started, in order. *)
Fixpoint started_texts (log : list SpeechMark) : list string :=
  match log with
  | [] => []
  | Started text :: rest => text :: started_texts rest
  | Stopped :: rest => started_texts rest
  end.

(** No utterance is started while one is on: [busy] tells whether one is on
    at the start of the log. *)
Fixpoint no_overlap (busy : bool) (log : list SpeechMark) : bool :=
  match log with
  | [] => true
  | Started _ :: rest => negb busy && no_overlap true rest
  | Stopped :: rest => no_overlap false rest
  end.

(** ** Sample timers, boards and stored records *)

Definition ten_second_timer : GameTimer :=
  {| id := "t1"; game := "Lorcana"; icon := None; durationSec := 10;
     remainingSec := 10; status := RUNNING; announceAt := [300; 120]%Q;
     pinned := Some false |}.

(** A timer that has all of its ten minutes left. *)
Definition full_timer : GameTimer :=
  {| id := "t2"; game := "One Piece"; icon := None; durationSec := 600;
     remainingSec := 600; status := PAUSED; announceAt := [300; 120]%Q;
     pinned := Some false |}.

Definition finished_timer : GameTimer :=
  {| id := "t3"; game := "Gundam"; icon := None; durationSec := 1800;
     remainingSec := 0; status := FINISHED; announceAt := [300; 120]%Q;
     pinned := Some false |}.

(** A board whose table is still empty, with a Finished timer and a timer of
    five minutes that was just added. *)
Definition two_tables : Board :=
  {| timers := addTimer "b" (Some "Riftbound") None (Some 5%Q) [finished_timer];
     lastSeen := ∅ |}.

(** A timer one second above its five-minute threshold. *)
Definition at_301 : GameTimer :=
  {| id := "t4"; game := "Pokemon"; icon := None; durationSec := 1800;
     remainingSec := 301; status := RUNNING; announceAt := [300; 120]%Q;
     pinned := Some false |}.

(** The board once the detector has seen the timer at 301. *)
Definition board_301 : Board :=
  snd (detector_pass {| timers := [at_301]; lastSeen := ∅ |}).



(** A stored record with no field at all. *)
Definition nothing_stored : StoredTimer :=
  {| st_id := None; st_game := None; st_icon := None; st_durationSec := None;
     st_remainingSec := None; st_minutes := None; st_status := None;
     st_announceAt := None; st_pinned := None |}.

(** A record with a negative remainingSec. *)
Definition negative_record : StoredTimer :=
  {| st_id := Some "n1"; st_game := Some "Lorcana"; st_icon := None;
     st_durationSec := Some (SNum 100); st_remainingSec := Some (SNum (-5));
     st_minutes := None; st_status := Some (SStr "PAUSED");
     st_announceAt := Some (SNumArray [300; 120]%Q);
     st_pinned := Some (SBool false) |}.

(** A record of the older shape: minutes, no durationSec. *)
Definition legacy_record : StoredTimer :=
  {| st_id := Some "m1"; st_game := Some "Yu-Gi-Oh!"; st_icon := None;
     st_durationSec := None; st_remainingSec := None;
     st_minutes := Some 30%Q; st_status := None;
     st_announceAt := None; st_pinned := None |}.

(** A supply of identifiers for the examples. *)
Definition sample_fresh_id (i : nat) : string := "fresh_" +:+ pretty i.

(** A stored Running timer with remainingSec -1.5, and the board the loader
    makes of it. *)
Definition below_zero_record : StoredTimer :=
  {| st_id := Some "n2"; st_game := Some "Gundam"; st_icon := None;
     st_durationSec := Some (SNum 100); st_remainingSec := Some (SNum (-3 # 2));
     st_minutes := None; st_status := Some (SStr "RUNNING");
     st_announceAt := Some (SNumArray [300; 120]%Q);
     st_pinned := Some (SBool false) |}.

Definition below_zero_board : Board :=
  {| timers := restore sample_fresh_id (Some [below_zero_record]); lastSeen := ∅ |}.

(** * Properties *)

(** Closes [NoDup] goals over a list of literal, distinct identifiers. *)
Ltac distinct_ids :=
  repeat (apply List.NoDup_cons; [cbn; intuition discriminate|]); apply List.NoDup_nil.

(** ** Arithmetic on the rationals used below *)

Lemma Qmax_0_nonneg (x : Q) : (0 <= Qmax 0 x)%Q.
Proof. apply Q.le_max_l. Qed.

Lemma Qmax_0_of_nonneg (x : Q) : (0 <= x)%Q -> (Qmax 0 x == x)%Q.
Proof. intros H. apply Q.max_r. exact H. Qed.

Lemma Qmax_0_of_nonpos (x : Q) : (x <= 0)%Q -> (Qmax 0 x == 0)%Q.
Proof. intros H. apply Q.max_l. exact H. Qed.

Lemma Qle_bool_true (x y : Q) : Qle_bool x y = true <-> (x <= y)%Q.
Proof. apply Qle_bool_iff. Qed.

Lemma Qle_bool_false (x y : Q) : Qle_bool x y = false <-> (y < x)%Q.
Proof.
  split; intros H.
  - apply Qnot_le_lt. intros Hle. apply Qle_bool_iff in Hle. congruence.
  - destruct (Qle_bool x y) eqn:E; [|reflexivity].
    apply Qle_bool_iff in E. lra.
Qed.

Lemma tick_delta_one : (tickRateMs / 1000 == 1)%Q.
Proof. reflexivity. Qed.

(** ** The tick *)

Lemma tick_timer_idle (tm : GameTimer) :
  status tm <> RUNNING -> tick_timer tm = tm.
Proof.
  intros H. unfold tick_timer. rewrite bool_decide_eq_true_2; [reflexivity|exact H].
Qed.

Lemma tick_timer_running (tm : GameTimer) :
  status tm = RUNNING ->
  tick_timer tm =
    {| id := id tm; game := game tm; icon := icon tm;
       durationSec := durationSec tm;
       remainingSec := Qmax 0 (remainingSec tm - tickRateMs / 1000);
       status := if Qle_bool (Qmax 0 (remainingSec tm - tickRateMs / 1000)) 0
                 then FINISHED else RUNNING;
       announceAt := announceAt tm; pinned := pinned tm |}.
Proof.
  intros H. unfold tick_timer. rewrite bool_decide_eq_false_2 by (rewrite H; tauto).
  cbv zeta. rewrite H. reflexivity.
Qed.

Lemma tick_timer_id (tm : GameTimer) : id (tick_timer tm) = id tm.
Proof.
  unfold tick_timer. destruct (bool_decide (status tm <> RUNNING)); reflexivity.
Qed.

Lemma tick_ids (prev : list GameTimer) : map id (tick prev) = map id prev.
Proof.
  unfold tick. rewrite map_map. apply map_ext. intros tm. apply tick_timer_id.
Qed.


Lemma tick_timer_remaining (tm : GameTimer) :
  status tm = RUNNING ->
  let delta := (tickRateMs / 1000)%Q in
  ((delta <= remainingSec tm)%Q ->
     (remainingSec (tick_timer tm) == remainingSec tm - delta)%Q) /\
  ((remainingSec tm <= delta)%Q -> (remainingSec (tick_timer tm) == 0)%Q).
Proof.
  intros H delta. rewrite (tick_timer_running tm H). cbn [remainingSec].
  fold delta. split; intros Hd.
  - apply Qmax_0_of_nonneg. lra.
  - apply Qmax_0_of_nonpos. lra.
Qed.

Lemma tick_timer_status (tm : GameTimer) :
  status tm = RUNNING ->
  (status (tick_timer tm) = FINISHED <-> (remainingSec (tick_timer tm) == 0)%Q) /\
  (status (tick_timer tm) = FINISHED \/ status (tick_timer tm) = RUNNING).
Proof.
  intros H. rewrite (tick_timer_running tm H). cbn [remainingSec status].
  set (next := Qmax 0 (remainingSec tm - tickRateMs / 1000)).
  assert (Hn : (0 <= next)%Q) by apply Qmax_0_nonneg.
  destruct (Qle_bool next 0) eqn:E.
  - apply Qle_bool_true in E. split; [|left; reflexivity].
    split; intros _; [lra|reflexivity].
  - apply Qle_bool_false in E. split; [|right; reflexivity].
    split; [discriminate|]. intros Hz. lra.
Qed.





(** ** The range of [remainingSec] under the tick and the controls *)

Lemma tick_timer_in_range (tm : GameTimer) :
  in_range tm -> in_range (tick_timer tm).
Proof.
  intros [H0 Hd]. unfold tick_timer.
  destruct (bool_decide (status tm <> RUNNING)); [split; assumption|].
  unfold in_range; cbn [remainingSec durationSec]. split.
  - apply Qmax_0_nonneg.
  - apply Q.max_lub; [lra|]. pose proof tick_delta_one. lra.
Qed.

Lemma minus_minute_in_range (tm : GameTimer) :
  in_range tm -> in_range (apply_op OpMinusMinute tm).
Proof.
  intros [H0 Hd]. unfold in_range; cbn. split.
  - apply Qmax_0_nonneg.
  - apply Q.max_lub; lra.
Qed.

Lemma reset_in_range (tm : GameTimer) :
  in_range tm -> in_range (apply_op OpReset tm).
Proof. intros [H0 Hd]. unfold in_range; cbn. lra. Qed.

Lemma minutes_in_range (tm : GameTimer) (value : option Q) :
  in_range tm -> in_range (apply_op (OpMinutes value) tm).
Proof.
  intros [H0 Hd]. unfold in_range; cbn.
  set (mins := Qmax 1 (number_or_one value)).
  assert (Hm : (1 <= mins)%Q) by apply Q.le_max_l.
  split.
  - apply Q.min_glb; lra.
  - apply Q.le_min_r.
Qed.

(** Every operation but the +1 minute nudge keeps [remainingSec] within
    [0, durationSec]. *)
Lemma ops_keep_range (o : Op) (tm : GameTimer) :
  o <> OpPlusMinute -> in_range tm -> in_range (apply_op o tm).
Proof.
  intros Ho Hr. destruct o; try congruence.
  - apply tick_timer_in_range, Hr.
  - exact Hr.
  - apply reset_in_range, Hr.
  - apply minus_minute_in_range, Hr.
  - apply minutes_in_range, Hr.
  - exact Hr.
  - exact Hr.
Qed.

Lemma updateTimer_lookup (t : list GameTimer) (i : string) (patch : Patch) (k : nat) :
  updateTimer t i patch !! k =
  (fun x => if bool_decide (id x = i) then merge x patch else x) <$> t !! k.
Proof. unfold updateTimer. apply list_lookup_fmap. Qed.

(** C2. The +1 minute control on a timer whose remainingSec equals its
    durationSec (600 of 600 seconds): the card's handler stores 660, above
    durationSec, so the range 0 <= remainingSec <= durationSec that held
    before the click no longer holds after it. *)
Theorem plus_minute_exceeds_duration :
  in_range full_timer /\
  updateTimer [full_timer] (id full_timer) (plusMinutePatch full_timer)
    = [apply_op OpPlusMinute full_timer] /\
  (remainingSec (apply_op OpPlusMinute full_timer) == 660)%Q /\
  (durationSec (apply_op OpPlusMinute full_timer) == 600)%Q /\
  ~ in_range (apply_op OpPlusMinute full_timer).
Proof.
  split; [split; vm_compute; discriminate|].
  split; [reflexivity|].
  split; [reflexivity|].
  split; [reflexivity|].
  intros [_ H]. vm_compute in H. apply H. reflexivity.
Qed.

(** ** Finished timers *)

Lemma start_pause_status (tm : GameTimer) :
  status (apply_op OpStartPause tm) =
  if bool_decide (status tm = RUNNING) then PAUSED else RUNNING.
Proof. reflexivity. Qed.

(** C3, as the specification states it, fails: one click on Start/Pause
    puts a Finished timer back to Running, with no reset in between. *)
Lemma start_pause_revives_finished :
  status (apply_op OpStartPause finished_timer) = RUNNING /\
  ~ (forall (tm : GameTimer) (n : nat),
       status tm = FINISHED ->
       status (Nat.iter n (apply_op OpStartPause) tm) <> RUNNING).
Proof.
  split; [reflexivity|].
  intros H. apply (H finished_timer 1%nat); reflexivity.
Qed.

(** C3, amended. A Running timer is Finished after a tick exactly when the
    tick brought remainingSec to zero.  On a Finished timer the tick, the
    two nudges, the duration and threshold edits and the pin leave the
    status Finished; reset gives remainingSec = durationSec and status
    Paused; Start/Pause, which sends every status but Running to Running,
    is the one operation that gives status Running. *)
Theorem finished_left_by_reset_or_start (tm : GameTimer) (o : Op) :
  status tm = FINISHED ->
  (forall r : GameTimer, status r = RUNNING ->
     (status (tick_timer r) = FINISHED <-> (remainingSec (tick_timer r) == 0)%Q)) /\
  (status (apply_op o tm) = RUNNING <-> o = OpStartPause) /\
  (o = OpReset ->
     remainingSec (apply_op o tm) = durationSec tm /\
     status (apply_op o tm) = PAUSED) /\
  (o <> OpStartPause -> o <> OpReset -> status (apply_op o tm) = FINISHED) /\
  (forall x : GameTimer, status x <> RUNNING ->
     status (apply_op OpStartPause x) = RUNNING).
Proof.
  intros Hf.
  split; [intros r Hr; apply (tick_timer_status r Hr)|].
  assert (Htick : tick_timer tm = tm)
    by (apply tick_timer_idle; rewrite Hf; discriminate).
  split.
  - split.
    + destruct o; cbn; rewrite ?Htick, ?Hf; cbn; try discriminate; reflexivity.
    + intros ->. rewrite start_pause_status, Hf. reflexivity.
  - split; [intros ->; split; reflexivity|].
    split.
    + intros H1 H2. destruct o; cbn; rewrite ?Htick, ?Hf; cbn; congruence.
    + intros x Hx. rewrite start_pause_status.
      rewrite bool_decide_eq_false_2; [reflexivity|exact Hx].
Qed.

Lemma finished_left_by_reset_or_start_witness :
  status (apply_op OpReset finished_timer) = PAUSED /\
  remainingSec (apply_op OpReset finished_timer) = 1800%Q /\
  status (apply_op OpStartPause finished_timer) = RUNNING.
Proof.
  destruct (finished_left_by_reset_or_start finished_timer OpReset eq_refl)
    as (_ & _ & Hreset & _ & Hstart).
  destruct (Hreset eq_refl) as [Hrem Hst].
  split; [exact Hst|]. split; [exact Hrem|].
  apply Hstart. discriminate.
Defined.

(** ** The detector: what one timer does to the table *)

Lemma includes_spec (arr : list Q) (x : Q) :
  includes arr x = true <-> exists a, In a arr /\ (a == x)%Q.
Proof.
  unfold includes. rewrite existsb_exists. split.
  - intros (a & Ha & He). exists a. split; [exact Ha|]. apply Qeq_bool_iff, He.
  - intros (a & Ha & He). exists a. split; [exact Ha|]. apply Qeq_bool_iff, He.
Qed.

Lemma detect_timer_finished_new (seen : gmap string Z) (tm : GameTimer) :
  status tm = FINISHED -> seen !! id tm <> Some (-1) ->
  detect_timer seen tm = ([Finished (id tm)], <[id tm := -1]> seen).
Proof.
  intros Hf Hs. unfold detect_timer.
  rewrite bool_decide_eq_true_2 by exact Hf.
  rewrite bool_decide_eq_true_2 by exact Hs. reflexivity.
Qed.

Lemma detect_timer_finished_seen (seen : gmap string Z) (tm : GameTimer) :
  status tm = FINISHED -> seen !! id tm = Some (-1) ->
  detect_timer seen tm = ([], seen).
Proof.
  intros Hf Hs. unfold detect_timer.
  rewrite bool_decide_eq_true_2 by exact Hf.
  rewrite bool_decide_eq_false_2; [reflexivity|]. intros H. apply H, Hs.
Qed.

Lemma detect_timer_counting (seen : gmap string Z) (tm : GameTimer) :
  status tm <> FINISHED ->
  detect_timer seen tm =
    (if includes (announceAt tm) (inject_Z (Qceiling (remainingSec tm)))
        && bool_decide (seen !! id tm <> Some (Qceiling (remainingSec tm)))
     then [Threshold (id tm) (Qceiling (remainingSec tm))] else [],
     <[id tm := Qceiling (remainingSec tm)]> seen).
Proof.
  intros Hf. unfold detect_timer.
  rewrite bool_decide_eq_false_2 by exact Hf. reflexivity.
Qed.

(** A timer writes the table at its own key only. *)
Lemma detect_timer_other (seen : gmap string Z) (tm : GameTimer) (j : string) :
  j <> id tm -> snd (detect_timer seen tm) !! j = seen !! j.
Proof.
  intros Hj. unfold detect_timer.
  destruct (bool_decide (status tm = FINISHED)).
  - destruct (bool_decide (seen !! id tm <> Some (-1))); cbn; [|reflexivity].
    apply lookup_insert_ne. congruence.
  - cbn. apply lookup_insert_ne. congruence.
Qed.

(** Its notifications carry its own id. *)
Lemma detect_timer_about_other (seen : gmap string Z) (tm : GameTimer) (j : string) :
  j <> id tm -> about j (fst (detect_timer seen tm)) = [].
Proof.
  intros Hj. unfold detect_timer, about.
  destruct (bool_decide (status tm = FINISHED)).
  - destruct (bool_decide (seen !! id tm <> Some (-1))); cbn [fst]; [|reflexivity].
    rewrite filter_cons_False; [reflexivity|]. cbn. congruence.
  - cbn [fst]. destruct (_ && _); [|reflexivity].
    rewrite filter_cons_False; [reflexivity|]. cbn. congruence.
Qed.

Lemma detect_timer_about_self (seen : gmap string Z) (tm : GameTimer) :
  about (id tm) (fst (detect_timer seen tm)) = fst (detect_timer seen tm).
Proof.
  unfold detect_timer, about.
  destruct (bool_decide (status tm = FINISHED)).
  - destruct (bool_decide (seen !! id tm <> Some (-1))); cbn [fst]; [|reflexivity].
    rewrite filter_cons_True; [reflexivity|]. reflexivity.
  - cbn [fst]. destruct (_ && _); [|reflexivity].
    rewrite filter_cons_True; [reflexivity|]. reflexivity.
Qed.

(** It reads the table at its own key only. *)
Lemma detect_timer_reads_own (seen seen' : gmap string Z) (tm : GameTimer) :
  seen !! id tm = seen' !! id tm ->
  fst (detect_timer seen tm) = fst (detect_timer seen' tm) /\
  snd (detect_timer seen tm) !! id tm = snd (detect_timer seen' tm) !! id tm.
Proof.
  intros H. unfold detect_timer. rewrite H.
  destruct (bool_decide (status tm = FINISHED)).
  - destruct (bool_decide (seen' !! id tm <> Some (-1))); cbn.
    + split; [reflexivity|]. rewrite !lookup_insert_eq. reflexivity.
    + split; [reflexivity|exact H].
  - cbn. split; [reflexivity|]. rewrite !lookup_insert_eq. reflexivity.
Qed.

(** ** The detector: a pass over the collection *)

Lemma detect_cons (seen : gmap string Z) (tm : GameTimer) (rest : list GameTimer) :
  detect seen (tm :: rest) =
  (fst (detect_timer seen tm) ++ fst (detect (snd (detect_timer seen tm)) rest),
   snd (detect (snd (detect_timer seen tm)) rest)).
Proof.
  cbn [detect]. destruct (detect_timer seen tm) as [out1 seen1]. cbn [fst snd].
  destruct (detect seen1 rest) as [out2 seen2]. reflexivity.
Qed.

Lemma about_app (j : string) (a b : list Notification) :
  about j (a ++ b) = about j a ++ about j b.
Proof. unfold about. apply filter_app. Qed.

(** A pass neither notifies about an id that no timer has, nor touches its
    entry. *)
Lemma detect_absent (timers : list GameTimer) (seen : gmap string Z) (j : string) :
  ~ In j (map id timers) ->
  about j (fst (detect seen timers)) = [] /\
  snd (detect seen timers) !! j = seen !! j.
Proof.
  revert seen. induction timers as [|tm rest IH]; intros seen Hj.
  - split; reflexivity.
  - rewrite detect_cons. cbn [fst snd].
    assert (Hne : j <> id tm) by (intros ->; apply Hj; left; reflexivity).
    assert (Hrest : ~ In j (map id rest)) by (intros H; apply Hj; right; exact H).
    destruct (IH (snd (detect_timer seen tm)) Hrest) as [IHa IHs].
    split.
    + rewrite about_app, IHa, detect_timer_about_other by exact Hne. reflexivity.
    + rewrite IHs. apply detect_timer_other, Hne.
Qed.

(** With distinct ids a pass treats each timer as if it were alone: the
    notifications about its id and its entry of the table afterwards are
    those of [detect_timer] on the table before the pass. *)
Lemma detect_local (timers : list GameTimer) (seen : gmap string Z) (tm : GameTimer) :
  List.NoDup (map id timers) -> In tm timers ->
  about (id tm) (fst (detect seen timers)) = fst (detect_timer seen tm) /\
  snd (detect seen timers) !! id tm = snd (detect_timer seen tm) !! id tm.
Proof.
  revert seen. induction timers as [|tm0 rest IH]; intros seen Hnd Hin.
  - destruct Hin.
  - rewrite detect_cons. cbn [fst snd].
    cbn [map] in Hnd. apply List.NoDup_cons_iff in Hnd as [Hfresh Hnd].
    destruct Hin as [->|Hin].
    + destruct (detect_absent rest (snd (detect_timer seen tm)) (id tm) Hfresh)
        as [Ha Hs].
      split.
      * rewrite about_app, Ha, detect_timer_about_self. apply app_nil_r.
      * exact Hs.
    + assert (Hne : id tm <> id tm0).
      { intros He. apply Hfresh. rewrite <- He. apply in_map, Hin. }
      destruct (IH (snd (detect_timer seen tm0)) Hnd Hin) as [IHa IHs].
      destruct (detect_timer_reads_own (snd (detect_timer seen tm0)) seen tm
                  (detect_timer_other seen tm0 (id tm) Hne)) as [Hf Hl].
      split.
      * rewrite about_app, detect_timer_about_other by exact Hne.
        cbn [app]. rewrite IHa. exact Hf.
      * rewrite IHs. exact Hl.
Qed.

Lemma detector_pass_fst (b : Board) :
  fst (detector_pass b) = fst (detect (lastSeen b) (timers b)).
Proof. unfold detector_pass. destruct (detect _ _); reflexivity. Qed.

Lemma detector_pass_snd (b : Board) :
  snd (detector_pass b) =
  {| timers := timers b; lastSeen := snd (detect (lastSeen b) (timers b)) |}.
Proof. unfold detector_pass. destruct (detect _ _); reflexivity. Qed.

Lemma tick_rounds_S (n : nat) (b : Board) :
  tick_rounds (S n) b =
  (fst (tick_round b) ++ fst (tick_rounds n (snd (tick_round b))),
   snd (tick_rounds n (snd (tick_round b)))).
Proof.
  cbn [tick_rounds]. destruct (tick_round b) as [out1 b1]. cbn [fst snd].
  destruct (tick_rounds n b1) as [out2 b2]. reflexivity.
Qed.

Lemma tick_keeps_finished (prev : list GameTimer) (tm : GameTimer) :
  status tm = FINISHED -> In tm prev -> In tm (tick prev).
Proof.
  intros Hf Hin. unfold tick. apply in_map_iff. exists tm. split; [|exact Hin].
  apply tick_timer_idle. rewrite Hf. discriminate.
Qed.

(** A Finished timer whose sentinel is in the table goes through a pass in
    silence, and the sentinel stays. *)
Lemma detect_finished_silent (timers : list GameTimer) (seen : gmap string Z)
    (tm : GameTimer) :
  List.NoDup (map id timers) -> In tm timers ->
  status tm = FINISHED -> seen !! id tm = Some (-1) ->
  about (id tm) (fst (detect seen timers)) = [] /\
  snd (detect seen timers) !! id tm = Some (-1).
Proof.
  intros Hnd Hin Hf Hs.
  destruct (detect_local timers seen tm Hnd Hin) as [Ha Hl].
  rewrite Ha, Hl, (detect_timer_finished_seen seen tm Hf Hs). split; [reflexivity|exact Hs].
Qed.

Lemma tick_rounds_finished_silent (n : nat) (b : Board) (tm : GameTimer) :
  List.NoDup (map id (timers b)) -> In tm (timers b) ->
  status tm = FINISHED -> lastSeen b !! id tm = Some (-1) ->
  about (id tm) (fst (tick_rounds n b)) = [] /\
  lastSeen (snd (tick_rounds n b)) !! id tm = Some (-1) /\
  In tm (timers (snd (tick_rounds n b))).
Proof.
  revert b. induction n as [|n IH]; intros b Hnd Hin Hf Hs.
  - cbn. auto.
  - rewrite tick_rounds_S. cbn [fst snd].
    unfold tick_round. rewrite detector_pass_fst, detector_pass_snd. cbn [timers lastSeen].
    assert (Hnd' : List.NoDup (map id (tick (timers b)))) by (rewrite tick_ids; exact Hnd).
    assert (Hin' : In tm (tick (timers b))) by (apply tick_keeps_finished; assumption).
    destruct (detect_finished_silent (tick (timers b)) (lastSeen b) tm Hnd' Hin' Hf Hs)
      as [Ha Hl].
    destruct (IH {| timers := tick (timers b);
                    lastSeen := snd (detect (lastSeen b) (tick (timers b))) |}
                Hnd' Hin' Hf Hl) as (IHa & IHl & IHin).
    split; [rewrite about_app, Ha, IHa; reflexivity|].
    split; assumption.
Qed.

Lemma in_about (j : string) (n : Notification) (out : list Notification) :
  In n (about j out) <-> notification_id n = j /\ In n out.
Proof.
  unfold about. rewrite <- list_elem_of_In, list_elem_of_filter, list_elem_of_In.
  reflexivity.
Qed.

(** A timer that is not Finished and whose rounded remainingSec is what the
    table holds goes through a pass in silence. *)
Lemma detect_same_value_silent (timers : list GameTimer) (seen : gmap string Z)
    (tm : GameTimer) :
  List.NoDup (map id timers) -> In tm timers ->
  status tm <> FINISHED -> seen !! id tm = Some (Qceiling (remainingSec tm)) ->
  about (id tm) (fst (detect seen timers)) = [].
Proof.
  intros Hnd Hin Hf Hs.
  destruct (detect_local timers seen tm Hnd Hin) as [Ha _].
  rewrite Ha, (detect_timer_counting seen tm Hf). cbn [fst].
  rewrite (bool_decide_eq_false_2 _); [|intros H; apply H, Hs].
  rewrite andb_false_r. reflexivity.
Qed.

(** On a board with distinct ids, take a Finished timer whose sentinel
    is not in the table.  The detector pass notifies Finished for it once
    and records the sentinel.  After that, however many ticks follow, no
    pass notifies about that timer again and the sentinel stays; the same
    holds for a pass over any later board on which the timer of that id is
    Finished and the sentinel is still recorded. *)
Theorem finished_notified_exactly_once (b : Board) (tm : GameTimer) :
  List.NoDup (map id (timers b)) -> In tm (timers b) ->
  status tm = FINISHED -> lastSeen b !! id tm <> Some (-1) ->
  about (id tm) (fst (detector_pass b)) = [Finished (id tm)] /\
  lastSeen (snd (detector_pass b)) !! id tm = Some (-1) /\
  (forall n : nat,
     about (id tm) (fst (tick_rounds n (snd (detector_pass b)))) = [] /\
     lastSeen (snd (tick_rounds n (snd (detector_pass b)))) !! id tm = Some (-1)) /\
  (forall (later : Board) (tm' : GameTimer),
     List.NoDup (map id (timers later)) -> In tm' (timers later) ->
     id tm' = id tm -> status tm' = FINISHED ->
     lastSeen later !! id tm = Some (-1) ->
     about (id tm) (fst (detector_pass later)) = [] /\
     lastSeen (snd (detector_pass later)) !! id tm = Some (-1)).
Proof.
  intros Hnd Hin Hf Hs.
  destruct (detect_local (timers b) (lastSeen b) tm Hnd Hin) as [Ha Hl].
  rewrite (detect_timer_finished_new _ tm Hf Hs) in Ha, Hl. cbn [fst snd] in Ha, Hl.
  rewrite lookup_insert_eq in Hl.
  rewrite detector_pass_fst, detector_pass_snd. cbn [lastSeen].
  split; [exact Ha|]. split; [exact Hl|]. split.
  - intros n.
    destruct (tick_rounds_finished_silent n
                {| timers := timers b;
                   lastSeen := snd (detect (lastSeen b) (timers b)) |} tm)
      as (H1 & H2 & _); auto.
  - intros later tm' Hnd' Hin' Hid Hf' Hs'.
    rewrite detector_pass_fst, detector_pass_snd. cbn [lastSeen].
    rewrite <- Hid in *. apply detect_finished_silent; assumption.
Qed.

Lemma finished_notified_exactly_once_witness :
  fst (detector_pass two_tables) = [Finished "t3"; Threshold "b" 300] /\
  about "t3" (fst (detector_pass two_tables)) = [Finished "t3"] /\
  about "t3" (fst (tick_rounds 5 (snd (detector_pass two_tables)))) = [].
Proof.
  split; [vm_compute; reflexivity|].
  assert (Hnd : List.NoDup (map id (timers two_tables))) by (cbn; distinct_ids).
  assert (Hin : In finished_timer (timers two_tables)) by (left; reflexivity).
  assert (Hs : lastSeen two_tables !! id finished_timer <> Some (-1))
    by (cbn; rewrite lookup_empty; discriminate).
  destruct (finished_notified_exactly_once two_tables finished_timer Hnd Hin eq_refl Hs)
    as (H1 & _ & Hn & _).
  split; [exact H1|]. apply (Hn 5%nat).
Defined.

(** C4. A timer that turns Finished and is never announced.  The stored
    record with durationSec 100, remainingSec -1.5 and status RUNNING loads
    as a Running timer with remainingSec -1.5.  The first detector pass
    notifies nothing and writes ceil(-1.5) = -1 for it, the value that is
    also the sentinel.  The next tick makes the timer Finished; its pass
    notifies nothing, and neither does any pass of any number of ticks. *)
Theorem finished_transition_unannounced (n : nat) :
  let loaded := normalize sample_fresh_id 0 below_zero_record in
  let b1 := snd (detector_pass below_zero_board) in
  timers below_zero_board = [loaded] /\
  status loaded = RUNNING /\ (remainingSec loaded == - (3 # 2))%Q /\
  fst (detector_pass below_zero_board) = [] /\
  lastSeen b1 !! id loaded = Some (-1) /\
  fst (tick_round b1) = [] /\
  map status (timers (snd (tick_round b1))) = [FINISHED] /\
  about (id loaded) (fst (tick_rounds n b1)) = [].
Proof.
  intros loaded b1.
  split; [reflexivity|]. split; [reflexivity|]. split; [reflexivity|].
  split; [vm_compute; reflexivity|]. split; [vm_compute; reflexivity|].
  assert (Hfirst : fst (tick_round b1) = []) by (vm_compute; reflexivity).
  split; [exact Hfirst|]. split; [vm_compute; reflexivity|].
  destruct n as [|n]; [reflexivity|].
  rewrite tick_rounds_S. cbn [fst]. rewrite about_app, Hfirst. cbn [app].
  destruct (tick_rounds_finished_silent n (snd (tick_round b1)) (tick_timer loaded))
    as (Hsil & _).
  - vm_compute. distinct_ids.
  - vm_compute. left. reflexivity.
  - vm_compute. reflexivity.
  - vm_compute. reflexivity.
  - exact Hsil.
Qed.

(** C5. On a board with distinct ids, for a timer that is not Finished and
    remaining = ceil(remainingSec): the pass emits Threshold(remaining) for
    it if and only if remaining is one of its announceAt values and the table
    does not hold remaining for its id; nothing else is emitted about it;
    the table holds remaining afterwards.  So a pass that finds the timer
    of that id with the same rounded value emits nothing about it.  With
    announceAt = {300, 120}: the tick from 301 to 300 emits Threshold(300)
    once, the next tick, to 299, emits nothing. *)
Theorem threshold_notified_on_new_value
    (timers : list GameTimer) (seen : gmap string Z) (tm : GameTimer) :
  List.NoDup (map id timers) -> In tm timers -> status tm <> FINISHED ->
  let remaining := Qceiling (remainingSec tm) in
  let out := fst (detect seen timers) in
  let seen' := snd (detect seen timers) in
  (In (Threshold (id tm) remaining) out <->
     (exists a, In a (announceAt tm) /\ (a == inject_Z remaining)%Q) /\
     seen !! id tm <> Some remaining) /\
  (about (id tm) out = [Threshold (id tm) remaining] \/ about (id tm) out = []) /\
  seen' !! id tm = Some remaining /\
  about (id tm) (fst (detect seen' timers)) = [] /\
  (forall (timers2 : list GameTimer) (seen2 : gmap string Z) (tm2 : GameTimer),
     List.NoDup (map id timers2) -> In tm2 timers2 -> id tm2 = id tm ->
     status tm2 <> FINISHED -> Qceiling (remainingSec tm2) = remaining ->
     seen2 !! id tm = Some remaining ->
     about (id tm) (fst (detect seen2 timers2)) = []) /\
  fst (tick_round board_301) = [Threshold "t4" 300] /\
  fst (tick_round (snd (tick_round board_301))) = [].
Proof.
  intros Hnd Hin Hf remaining out seen'.
  destruct (detect_local timers seen tm Hnd Hin) as [Ha Hl].
  rewrite (detect_timer_counting seen tm Hf) in Ha, Hl. cbn [fst snd] in Ha, Hl.
  fold remaining in Ha, Hl. fold out in Ha. fold seen' in Hl.
  rewrite lookup_insert_eq in Hl.
  split.
  - transitivity (In (Threshold (id tm) remaining) (about (id tm) out)).
    { rewrite in_about. cbn. tauto. }
    rewrite Ha, <- includes_spec.
    destruct (includes (announceAt tm) (inject_Z remaining)); cbn [andb].
    + destruct (bool_decide_reflect (seen !! id tm <> Some remaining)) as [Hd|Hd].
      * split; [intros _; split; [reflexivity|exact Hd]|intros _; left; reflexivity].
      * split; [intros []|intros [_ H]; contradiction].
    + split; [intros []|intros [H _]; discriminate].
  - split.
    { rewrite Ha. destruct (_ && _); [left|right]; reflexivity. }
    split; [exact Hl|]. split.
    { apply detect_same_value_silent; assumption. }
    split.
    { intros timers2 seen2 tm2 Hnd2 Hin2 Hid Hf2 Hc Hs2. rewrite <- Hid in *.
      apply detect_same_value_silent; try assumption. rewrite Hc. exact Hs2. }
    split; vm_compute; reflexivity.
Qed.

Lemma threshold_notified_on_new_value_witness :
  In (Threshold "t4" 300) (fst (detect (lastSeen board_301) (tick [at_301]))) /\
  snd (detect (lastSeen board_301) (tick [at_301])) !! "t4" = Some 300.
Proof.
  assert (Hnd : List.NoDup (map id (tick [at_301]))) by (cbn; distinct_ids).
  assert (Hin : In (tick_timer at_301) (tick [at_301])) by (left; reflexivity).
  assert (Hf : status (tick_timer at_301) <> FINISHED) by (vm_compute; discriminate).
  destruct (threshold_notified_on_new_value (tick [at_301]) (lastSeen board_301)
              (tick_timer at_301) Hnd Hin Hf) as (Hiff & _ & Hseen & _).
  split.
  - apply Hiff. split.
    + exists 300%Q. split; [left; reflexivity|reflexivity].
    + vm_compute. discriminate.
  - exact Hseen.
Defined.

(** C10. A timer that is not Finished, has no entry in the table and whose
    ceil(remainingSec) is one of its announceAt values gets a Threshold
    notification from the first pass that sees it, though remainingSec never
    came down to that value; so does a timer evaluated on its own. *)
Theorem threshold_notified_at_first_sight
    (timers : list GameTimer) (seen : gmap string Z) (tm : GameTimer) :
  List.NoDup (map id timers) -> In tm timers ->
  seen !! id tm = None -> status tm <> FINISHED ->
  (exists a, In a (announceAt tm) /\ (a == inject_Z (Qceiling (remainingSec tm)))%Q) ->
  fst (detect_timer seen tm) = [Threshold (id tm) (Qceiling (remainingSec tm))] /\
  about (id tm) (fst (detect seen timers))
    = [Threshold (id tm) (Qceiling (remainingSec tm))] /\
  In (Threshold (id tm) (Qceiling (remainingSec tm))) (fst (detect seen timers)).
Proof.
  intros Hnd Hin Hs Hf Hmem.
  destruct (detect_local timers seen tm Hnd Hin) as [Ha _].
  assert (Hone : fst (detect_timer seen tm)
                 = [Threshold (id tm) (Qceiling (remainingSec tm))]).
  { rewrite (detect_timer_counting seen tm Hf). cbn [fst].
    apply includes_spec in Hmem. rewrite Hmem, Hs.
    rewrite bool_decide_eq_true_2 by discriminate. reflexivity. }
  split; [exact Hone|]. rewrite Hone in Ha. split; [exact Ha|].
  apply (in_about (id tm)). rewrite Ha. left. reflexivity.
Qed.

Lemma threshold_notified_at_first_sight_witness :
  about "b" (fst (detect (lastSeen two_tables) (timers two_tables)))
    = [Threshold "b" 300].
Proof.
  pose (tm := {| id := "b"; game := "Riftbound"; icon := None;
                 durationSec := (5 * 60)%Q; remainingSec := (5 * 60)%Q;
                 status := PAUSED; announceAt := [300; 120]%Q;
                 pinned := Some false |}).
  assert (Hnd : List.NoDup (map id (timers two_tables))) by (cbn; distinct_ids).
  assert (Hin : In tm (timers two_tables)) by (right; left; reflexivity).
  assert (Hs : lastSeen two_tables !! id tm = None) by apply lookup_empty.
  assert (Hf : status tm <> FINISHED) by discriminate.
  assert (Hmem : exists a, In a (announceAt tm) /\
                   (a == inject_Z (Qceiling (remainingSec tm)))%Q).
  { exists 300%Q. split; [left; reflexivity|reflexivity]. }
  destruct (threshold_notified_at_first_sight _ _ tm Hnd Hin Hs Hf Hmem)
    as (_ & H & _).
  exact H.
Defined.

(** ** Restoring stored timers *)

Lemma restore_lookup (fresh_id : nat -> string) (records : list StoredTimer) (i : nat) :
  restore fresh_id (Some records) !! i = normalize fresh_id i <$> records !! i.
Proof. unfold restore. apply list_lookup_imap. Qed.

(** The loader does cap remainingSec at durationSec. *)
Lemma normalize_remaining_le_duration (fresh_id : nat -> string) (i : nat)
    (t : StoredTimer) :
  (remainingSec (normalize fresh_id i t) <= durationSec (normalize fresh_id i t))%Q.
Proof. unfold normalize. cbn [remainingSec durationSec]. apply Q.le_min_l. Qed.

Lemma normalize_remaining_number (fresh_id : nat -> string) (i : nat)
    (t : StoredTimer) (d r : Q) :
  st_durationSec t = Some (SNum d) -> st_remainingSec t = Some (SNum r) ->
  durationSec (normalize fresh_id i t) = d /\
  remainingSec (normalize fresh_id i t) = Qmin d r.
Proof.
  intros Hd Hr. unfold normalize. cbn [remainingSec durationSec].
  rewrite Hd, Hr. split; reflexivity.
Qed.

(** C6. A stored record with durationSec 100 and remainingSec -5: the
    loader hands the board a timer whose remainingSec is still -5, below
    zero; only the upper end of the range is enforced. *)
Theorem restore_keeps_negative_remaining :
  forall fresh_id : nat -> string,
    exists tm,
      restore fresh_id (Some [negative_record]) = [tm] /\
      durationSec tm = 100%Q /\
      remainingSec tm = (-5)%Q /\
      (remainingSec tm < 0)%Q /\
      ~ in_range tm.
Proof.
  intros fresh_id. exists (normalize fresh_id 0 negative_record).
  split; [reflexivity|]. split; [reflexivity|]. split; [reflexivity|].
  split; [reflexivity|].
  intros [H _]. vm_compute in H. apply H. reflexivity.
Qed.




(** *** Normalising what was normalised *)

Lemma or_else_nonempty (s : option string) (fallback : string) :
  fallback <> "" -> or_else s fallback <> "".
Proof.
  intros Hf. unfold or_else. destruct s as [x|]; [|exact Hf].
  destruct (bool_decide_reflect (x = "")); assumption.
Qed.

Lemma or_else_some (x fallback : string) :
  x <> "" -> or_else (Some x) fallback = x.
Proof.
  intros Hx. unfold or_else. rewrite bool_decide_eq_false_2 by exact Hx. reflexivity.
Qed.

Lemma Qmin_again (d x : Q) : Qmin d (Qmin d x) = Qmin d x.
Proof.
  unfold Qmin, GenericMinMax.gmin.
  destruct (d ?= x)%Q eqn:E.
  - destruct (d ?= d)%Q; reflexivity.
  - destruct (d ?= d)%Q; reflexivity.
  - rewrite E. reflexivity.
Qed.

Lemma status_name_read (s : TimerStatus) :
  (if bool_decide (status_name s = "RUNNING") then RUNNING
   else if bool_decide (status_name s = "FINISHED") then FINISHED
   else PAUSED) = s.
Proof. destruct s; reflexivity. Qed.

Lemma normalize_stored (fresh_id fresh_id' : nat -> string) (i : nat)
    (t : StoredTimer) :
  fresh_id i <> "" ->
  normalize fresh_id' i (stored (normalize fresh_id i t)) = normalize fresh_id i t.
Proof.
  intros Hfresh.
  assert (Hid : or_else (st_id t) (fresh_id i) <> "")
    by (apply or_else_nonempty, Hfresh).
  assert (Hgame : or_else (st_game t) "Untitled Game" <> "")
    by (apply or_else_nonempty; discriminate).
  assert (Hicon : or_else (st_icon t) default_icon <> "")
    by (apply or_else_nonempty; discriminate).
  unfold normalize at 1. unfold stored.
  cbn [st_id st_game st_icon st_durationSec st_remainingSec st_minutes
       st_status st_announceAt st_pinned].
  unfold normalize.
  cbn [id game icon durationSec remainingSec status announceAt pinned].
  rewrite (or_else_some _ _ Hid), (or_else_some _ _ Hgame), (or_else_some _ _ Hicon).
  rewrite Qmin_again, status_name_read.
  cbn [fmap option_fmap option_map truthy].
  reflexivity.
Qed.

(** C8. Normalising the stored form of a normalised collection changes
    nothing: the same timers (id, game, icon, durationSec, remainingSec,
    status, announceAt, pinned) in the same order, whatever identifiers the
    second run would hand out.  The identifiers handed out by the first run
    are not empty. *)
Theorem restore_idempotent
    (fresh_id fresh_id' : nat -> string) (parsed : option (list StoredTimer)) :
  (forall i, fresh_id i <> "") ->
  restore fresh_id' (Some (map stored (restore fresh_id parsed)))
  = restore fresh_id parsed.
Proof.
  intros Hfresh. destruct parsed as [records|]; [|reflexivity].
  apply list_eq. intros i.
  rewrite restore_lookup, list_lookup_fmap, restore_lookup.
  destruct (records !! i) as [t|]; [|reflexivity].
  cbn [fmap option_fmap option_map]. f_equal.
  apply normalize_stored, Hfresh.
Qed.

Lemma sample_fresh_id_nonempty (i : nat) : sample_fresh_id i <> "".
Proof. unfold sample_fresh_id. cbn. discriminate. Qed.

Lemma restore_idempotent_witness :
  restore (fun _ => "other")
    (Some (map stored
       (restore sample_fresh_id (Some [nothing_stored; legacy_record; negative_record]))))
  = restore sample_fresh_id (Some [nothing_stored; legacy_record; negative_record]).
Proof.
  apply (restore_idempotent sample_fresh_id (fun _ => "other")
           (Some [nothing_stored; legacy_record; negative_record])
           sample_fresh_id_nonempty).
Defined.

(** ** Adding and removing timers *)

Lemma addTimer_appends (new_id : string) (g ic : option string) (mins : option Q)
    (t : list GameTimer) :
  exists tm,
    addTimer new_id g ic mins t = t ++ [tm] /\
    id tm = new_id /\ status tm = PAUSED /\
    remainingSec tm = durationSec tm /\
    announceAt tm = [300; 120]%Q.
Proof. eexists. split; [reflexivity|]. cbn. auto. Qed.

Lemma removeTimer_forgets (i : string) (b : Board) :
  lastSeen (removeTimer i b) !! i = None /\
  ~ In i (map id (timers (removeTimer i b))).
Proof.
  split; [apply lookup_delete_eq|].
  cbn. intros H. apply in_map_iff in H as (x & Hx & Hin).
  apply list_elem_of_In, list_elem_of_filter in Hin as [Hne _]. contradiction.
Qed.

(** Ten ticks on a Running timer with 7 seconds left, last seen at 7: the
    timer is Finished from the seventh tick on and Finished is notified
    once. *)
Example seven_seconds_left :
  let b := {| timers := [ {| id := "t1"; game := "Lorcana"; icon := None;
                             durationSec := 10; remainingSec := 7;
                             status := RUNNING; announceAt := [300; 120]%Q;
                             pinned := Some false |} ];
              lastSeen := {[ "t1" := 7 ]} |} in
  fst (tick_rounds 6 b) = [] /\
  fst (tick_rounds 7 b) = [Finished "t1"] /\
  fst (tick_rounds 10 b) = [Finished "t1"] /\
  map status (timers (snd (tick_rounds 10 b))) = [FINISHED].
Proof. vm_compute. repeat split; reflexivity. Qed.

(** ** The clock *)

Lemma string_app_assoc (a b c : string) : (a +:+ b) +:+ c = a +:+ b +:+ c.
Proof.
  induction a as [|x a IH]; [reflexivity|].
  cbv [String.append] in *. fold String.append in *. rewrite IH. reflexivity.
Qed.

Lemma pretty_N_go_grows (x : N) (s : string) :
  (String.length s <= String.length (pretty_N_go x s))%nat.
Proof.
  revert s. induction (N.lt_wf_0 x) as [x _ IH]. intros s.
  destruct (N.eq_dec x 0%N) as [->|Hx].
  - rewrite pretty_N_go_0. lia.
  - rewrite pretty_N_go_step by lia.
    etransitivity; [|apply IH; apply N.div_lt; lia]. cbn. lia.
Qed.

(** From 100 on the numeral has three characters or more. *)
Lemma String_of_wide (n : Z) : 100 <= n -> (3 <= String.length (String_of n))%nat.
Proof.
  intros Hn. destruct n as [|p|p]; try lia.
  unfold String_of, pretty, pretty_Z, pretty, pretty_positive, pretty, pretty_N.
  destruct (decide (N.pos p = 0%N)) as [E|_]; [discriminate E|].
  assert (H1 : (0 < N.pos p)%N) by lia.
  assert (H2 : (0 < N.pos p / 10)%N) by (apply N.div_str_pos; lia).
  assert (H3 : (0 < (N.pos p / 10) / 10)%N).
  { apply N.div_str_pos. split; [lia|]. apply N.div_le_lower_bound; lia. }
  rewrite (pretty_N_go_step _ _ H1), (pretty_N_go_step _ _ H2), (pretty_N_go_step _ _ H3).
  etransitivity; [|apply pretty_N_go_grows]. cbn. lia.
Qed.

Lemma padStart_long (s : string) (n : nat) (c : ascii) :
  (n <= String.length s)%nat -> padStart s n c = s.
Proof.
  intros H. unfold padStart. replace (n - String.length s)%nat with 0%nat by lia.
  reflexivity.
Qed.

Lemma pad_wide (n : Z) :
  100 <= n -> pad n = String_of n /\ (3 <= String.length (pad n))%nat.
Proof.
  intros Hn. pose proof (String_of_wide n Hn) as Hw.
  assert (Hp : pad n = String_of n) by (apply padStart_long; lia).
  rewrite Hp. split; [reflexivity|exact Hw].
Qed.

Lemma pad_below_100_checked :
  forallb (fun k => bool_decide (pad (Z.of_nat k) = two_digits (Z.of_nat k)))
          (seq 0 100) = true.
Proof. vm_compute. reflexivity. Qed.

(** Below 100 the padded numeral is the two-digit field. *)
Lemma pad_two_digits (n : Z) : 0 <= n < 100 -> pad n = two_digits n.
Proof.
  intros Hn. pose proof pad_below_100_checked as H.
  rewrite forallb_forall in H.
  specialize (H (Z.to_nat n) ltac:(apply in_seq; lia)).
  rewrite Z2Nat.id in H by lia.
  apply bool_decide_eq_true in H. exact H.
Qed.

Lemma digit_ok (k : Z) :
  0 <= k < 10 -> is_digit (digit k) = true /\ digit k <> ":"%char.
Proof.
  intros Hk.
  assert (H : k = 0 \/ k = 1 \/ k = 2 \/ k = 3 \/ k = 4 \/ k = 5 \/ k = 6 \/
              k = 7 \/ k = 8 \/ k = 9) by lia.
  repeat (destruct H as [->|H]; [split; [reflexivity|discriminate]|]).
  subst k. split; [reflexivity|discriminate].
Qed.

Lemma two_digits_shape (n : Z) :
  0 <= n < 100 ->
  exists a b, two_digits n = String a (String b EmptyString) /\
              is_digit a = true /\ is_digit b = true /\
              a <> ":"%char /\ b <> ":"%char.
Proof.
  intros Hn. exists (digit (n / 10)), (digit (n mod 10)).
  destruct (digit_ok (n / 10)) as [H1 H2].
  { split; [apply Z.div_pos; lia|apply Z.div_lt_upper_bound; lia]. }
  destruct (digit_ok (n mod 10)) as [H3 H4]; [apply Z.mod_pos_bound; lia|].
  repeat split; assumption.
Qed.

Lemma two_fields_clock (m sec : Z) :
  0 <= m < 100 -> 0 <= sec < 100 ->
  two_digit_clock (two_digits m +:+ ":" +:+ two_digits sec) = true.
Proof.
  intros Hm Hs.
  destruct (two_digits_shape m Hm) as (a & b & -> & Da & Db & Na & Nb).
  destruct (two_digits_shape sec Hs) as (c & d & -> & Dc & Dd & Nc & Nd).
  unfold two_digit_clock. cbv [String.append]. cbn [split_on].
  rewrite !(bool_decide_eq_false_2 _ Na), !(bool_decide_eq_false_2 _ Nb),
          !(bool_decide_eq_false_2 _ Nc), !(bool_decide_eq_false_2 _ Nd).
  rewrite (bool_decide_eq_true_2 (":"%char = ":"%char)) by reflexivity.
  cbn [forallb two_digit_field length]. rewrite Da, Db, Dc, Dd. reflexivity.
Qed.

Lemma three_fields_clock (h m sec : Z) :
  0 <= h < 100 -> 0 <= m < 100 -> 0 <= sec < 100 ->
  two_digit_clock (two_digits h +:+ ":" +:+ two_digits m +:+ ":" +:+ two_digits sec)
  = true.
Proof.
  intros Hh Hm Hs.
  destruct (two_digits_shape h Hh) as (x & y & -> & Dx & Dy & Nx & Ny).
  destruct (two_digits_shape m Hm) as (a & b & -> & Da & Db & Na & Nb).
  destruct (two_digits_shape sec Hs) as (c & d & -> & Dc & Dd & Nc & Nd).
  unfold two_digit_clock. cbv [String.append]. cbn [split_on].
  rewrite !(bool_decide_eq_false_2 _ Nx), !(bool_decide_eq_false_2 _ Ny),
          !(bool_decide_eq_false_2 _ Na), !(bool_decide_eq_false_2 _ Nb),
          !(bool_decide_eq_false_2 _ Nc), !(bool_decide_eq_false_2 _ Nd).
  rewrite (bool_decide_eq_true_2 (":"%char = ":"%char)) by reflexivity.
  cbn [forallb two_digit_field length]. rewrite Dx, Dy, Da, Db, Dc, Dd. reflexivity.
Qed.

(** C9, as the specification states it, fails: from 100 hours on the hours
    field has more than two digits. *)
Lemma hundred_hours_need_three_digits :
  formatHHMMSS 360000 = "100:00:00" /\
  two_digit_clock (formatHHMMSS 360000) = false /\
  ~ (forall totalSeconds : Q, two_digit_clock (formatHHMMSS totalSeconds) = true).
Proof.
  split; [vm_compute; reflexivity|]. split; [vm_compute; reflexivity|].
  intros H. specialize (H 360000%Q). vm_compute in H. discriminate H.
Qed.

(** C9, amended. For every number of seconds below 2^53, with s the floor of
    the input clamped at zero and h = s / 3600: the result is the minutes and the
    seconds as two-digit fields, after the hours field and a colon when h is
    not zero.  The hours field is h padded to two digits: a two-digit field
    below 100 hours, the plain numeral of three or more digits from 100
    hours on.  Below 100 hours the result is a clock of two-digit fields.
    3661 gives 01:01:01, 59 gives 00:59 and -5 gives 00:00. *)
Theorem formatHHMMSS_fields (totalSeconds : Q) :
  (totalSeconds < inject_Z exact_limit)%Q ->
  let s := Z.max 0 (Qfloor totalSeconds) in
  let h := s / 3600 in
  formatHHMMSS totalSeconds =
    (if h =? 0 then "" else pad h +:+ ":")
    +:+ two_digits ((s mod 3600) / 60) +:+ ":" +:+ two_digits (s mod 60) /\
  (if h <? 100
   then pad h = two_digits h /\ two_digit_clock (formatHHMMSS totalSeconds) = true
   else pad h = String_of h /\ (3 <= String.length (pad h))%nat) /\
  formatHHMMSS 3661 = "01:01:01" /\
  formatHHMMSS 59 = "00:59" /\
  formatHHMMSS (-5) = "00:00".
Proof.
  intros _ s h.
  assert (Hs : 0 <= s) by apply Z.le_max_l.
  assert (Hh : 0 <= h) by (apply Z.div_pos; lia).
  assert (Hm : 0 <= (s mod 3600) / 60 < 60).
  { pose proof (Z.mod_pos_bound s 3600 ltac:(lia)) as Hb. split.
    - apply Z.div_pos; lia.
    - apply Z.div_lt_upper_bound; lia. }
  assert (Hsec : 0 <= s mod 60 < 60) by (apply Z.mod_pos_bound; lia).
  assert (Hfmt : formatHHMMSS totalSeconds =
                 (if h =? 0 then "" else pad h +:+ ":")
                 +:+ two_digits ((s mod 3600) / 60) +:+ ":" +:+ two_digits (s mod 60)).
  { unfold formatHHMMSS. fold s. fold h.
    rewrite (pad_two_digits ((s mod 3600) / 60)) by lia.
    rewrite (pad_two_digits (s mod 60)) by lia.
    destruct (Z.ltb_spec 0 h) as [Hpos|Hz].
    - rewrite (proj2 (Z.eqb_neq h 0)) by lia.
      rewrite string_app_assoc. reflexivity.
    - replace h with 0 by lia. reflexivity. }
  split; [exact Hfmt|]. split.
  - destruct (Z.ltb_spec h 100) as [Hlt|Hge].
    + assert (Hp : pad h = two_digits h) by (apply pad_two_digits; lia).
      split; [exact Hp|]. rewrite Hfmt, Hp.
      destruct (Z.eqb_spec h 0) as [_|_].
      * apply two_fields_clock; lia.
      * rewrite string_app_assoc. apply three_fields_clock; lia.
    + apply pad_wide, Hge.
  - repeat split; vm_compute; reflexivity.
Qed.

Lemma formatHHMMSS_fields_witness :
  formatHHMMSS 3661 = "01:01:01" /\ pad 1 = two_digits 1.
Proof.
  assert (Hlt : (3661 < inject_Z exact_limit)%Q) by reflexivity.
  pose proof (formatHHMMSS_fields 3661 Hlt) as H. cbv zeta in H.
  destruct H as (Hfmt & Hpad & _).
  split.
  - rewrite Hfmt. vm_compute. reflexivity.
  - change (Z.max 0 (Qfloor 3661) / 3600) with 1 in Hpad.
    change (1 <? 100) with true in Hpad. cbv iota in Hpad. apply Hpad.
Defined.

(** * Further properties *)

(** ** Rounding up *)

Lemma Qceiling_bounds (x : Q) :
  (inject_Z (Qceiling x) - 1 < x)%Q /\ (x <= inject_Z (Qceiling x))%Q.
Proof.
  split; [|apply Qle_ceiling].
  pose proof (Qceiling_lt x) as H. unfold Z.sub in H.
  rewrite inject_Z_plus, inject_Z_opp in H. exact H.
Qed.

Lemma Qceiling_unique (x : Q) (z : Z) :
  (inject_Z z - 1 < x)%Q -> (x <= inject_Z z)%Q -> Qceiling x = z.
Proof.
  intros Hlo Hhi. destruct (Qceiling_bounds x) as [Hc2 Hc1].
  assert (H1 : (Qceiling x < z + 1)%Z).
  { rewrite Zlt_Qlt, inject_Z_plus. change (inject_Z 1) with 1%Q. lra. }
  assert (H2 : (z < Qceiling x + 1)%Z).
  { rewrite Zlt_Qlt, inject_Z_plus. change (inject_Z 1) with 1%Q. lra. }
  lia.
Qed.




#[global] Instance Qceiling_proper : Proper (Qeq ==> eq) Qceiling.
Proof.
  intros x y Hxy. destruct (Qceiling_bounds y) as [Hc2 Hc1].
  apply Qceiling_unique; lra.
Qed.

#[global] Instance includes_proper (arr : list Q) : Proper (Qeq ==> eq) (includes arr).
Proof.
  intros x y Hxy. unfold includes. induction arr as [|a arr IH]; [reflexivity|].
  cbn [existsb]. rewrite IH. f_equal.
  destruct (Qeq_bool a x) eqn:E1, (Qeq_bool a y) eqn:E2; try reflexivity.
  - apply Qeq_bool_iff in E1. apply Qeq_bool_neq in E2. exfalso. apply E2. lra.
  - apply Qeq_bool_iff in E2. apply Qeq_bool_neq in E1. exfalso. apply E1. lra.
Qed.

(** ** One tick of a Running timer, by its rounded remainingSec *)

Lemma tick_timer_last_second (tm : GameTimer) :
  status tm = RUNNING -> (remainingSec tm <= 1)%Q ->
  status (tick_timer tm) = FINISHED /\ (remainingSec (tick_timer tm) == 0)%Q.
Proof.
  intros Hs Hr.
  destruct (tick_timer_remaining tm Hs) as [_ Hz].
  destruct (tick_timer_status tm Hs) as [Hf _].
  pose proof tick_delta_one as Hd.
  assert (H0 : (remainingSec (tick_timer tm) == 0)%Q) by (apply Hz; lra).
  split; [apply Hf, H0|exact H0].
Qed.



Lemma tick_member (prev : list GameTimer) (tm : GameTimer) :
  In tm prev -> In (tick_timer tm) (tick prev).
Proof. intros H. unfold tick. apply in_map, H. Qed.

Lemma tick_round_fst (b : Board) :
  fst (tick_round b) = fst (detect (lastSeen b) (tick (timers b))).
Proof. unfold tick_round. rewrite detector_pass_fst. reflexivity. Qed.

Lemma tick_round_snd (b : Board) :
  snd (tick_round b) =
  {| timers := tick (timers b);
     lastSeen := snd (detect (lastSeen b) (tick (timers b))) |}.
Proof. unfold tick_round. rewrite detector_pass_snd. reflexivity. Qed.

(** ** A countdown, tick by tick *)












(** ** Many ticks, many operations *)










(** ** The store *)

Lemma merge_twice (x : GameTimer) (p : Patch) : merge (merge x p) p = merge x p.
Proof.
  destruct p as [pi pg pc pd pr ps pa pp]. unfold merge. cbn.
  destruct pi, pg, pc, pd, pr, ps, pa, pp; reflexivity.
Qed.

Lemma updateTimer_ids (t : list GameTimer) (i : string) (p : Patch) :
  p_id p = None -> map id (updateTimer t i p) = map id t.
Proof.
  intros Hp. unfold updateTimer. rewrite map_map. apply map_ext. intros x.
  destruct (bool_decide (id x = i)); [|reflexivity].
  unfold merge. cbn [id]. rewrite Hp. reflexivity.
Qed.

Lemma updateTimer_member (t : list GameTimer) (p : Patch) (x : GameTimer) :
  In x t -> In (merge x p) (updateTimer t (id x) p).
Proof.
  intros H. unfold updateTimer. apply in_map_iff. exists x. split; [|exact H].
  rewrite bool_decide_eq_true_2; reflexivity.
Qed.

Lemma updateTimer_absent (t : list GameTimer) (i : string) (p : Patch) :
  ~ In i (map id t) -> updateTimer t i p = t.
Proof.
  intros H. unfold updateTimer. rewrite <- (map_id t) at 2.
  apply map_ext_in. intros x Hx.
  rewrite bool_decide_eq_false_2; [reflexivity|].
  intros <-. apply H, in_map, Hx.
Qed.

(** X5. [updateTimer] with an id that no timer has changes nothing;
    timers with another id are kept as they are, in place, and those with
    the id get the patch; the update is idempotent; it keeps the number of
    timers, and their ids when the patch sets no id. *)
Theorem updateTimer_touches_matching_only (t : list GameTimer) (i : string) (p : Patch) :
  (~ In i (map id t) -> updateTimer t i p = t) /\
  (forall (k : nat) (x : GameTimer),
     t !! k = Some x -> id x <> i -> updateTimer t i p !! k = Some x) /\
  (forall (k : nat) (x : GameTimer),
     t !! k = Some x -> id x = i -> updateTimer t i p !! k = Some (merge x p)) /\
  updateTimer (updateTimer t i p) i p = updateTimer t i p /\
  length (updateTimer t i p) = length t /\
  (p_id p = None -> map id (updateTimer t i p) = map id t).
Proof.
  split; [apply updateTimer_absent|]. split; [|split; [|split; [|split]]].
  - intros k x Hk Hx. rewrite updateTimer_lookup, Hk. cbn.
    rewrite bool_decide_eq_false_2 by exact Hx. reflexivity.
  - intros k x Hk Hx. rewrite updateTimer_lookup, Hk. cbn.
    rewrite bool_decide_eq_true_2 by exact Hx. reflexivity.
  - unfold updateTimer. rewrite map_map. apply map_ext. intros x.
    destruct (bool_decide_reflect (id x = i)) as [Hx|Hx].
    + destruct (bool_decide (id (merge x p) = i)); [apply merge_twice|reflexivity].
    + rewrite bool_decide_eq_false_2 by exact Hx. reflexivity.
  - unfold updateTimer. apply length_map.
  - apply updateTimer_ids.
Qed.

Lemma updateTimer_touches_matching_only_witness :
  updateTimer [full_timer; finished_timer] "nobody" (resetPatch finished_timer)
  = [full_timer; finished_timer].
Proof.
  assert (H : ~ In "nobody" (map id [full_timer; finished_timer]))
    by (cbn; intuition discriminate).
  exact (proj1 (updateTimer_touches_matching_only [full_timer; finished_timer] "nobody"
                  (resetPatch finished_timer)) H).
Defined.

Lemma removeTimer_timers (i : string) (b : Board) :
  timers (removeTimer i b) = filter (fun x => id x <> i) (timers b).
Proof. reflexivity. Qed.

Lemma filter_other_ids (i : string) (t : list GameTimer) :
  ~ In i (map id t) -> filter (fun x => id x <> i) t = t.
Proof.
  induction t as [|x t IH]; intros H; [reflexivity|].
  rewrite filter_cons_True by (intros He; apply H; left; exact He).
  rewrite IH; [reflexivity|]. intros Hin. apply H. right. exact Hin.
Qed.

Lemma filter_ids_again (i : string) (t : list GameTimer) :
  filter (fun x => id x <> i) (filter (fun x => id x <> i) t)
  = filter (fun x => id x <> i) t.
Proof.
  induction t as [|x t IH]; [reflexivity|].
  destruct (decide (id x <> i)) as [Hx|Hx].
  - rewrite (filter_cons_True _ x t Hx), (filter_cons_True _ x _ Hx), IH. reflexivity.
  - rewrite (filter_cons_False _ x t Hx). exact IH.
Qed.

(** X6. Removing the timer that was just added under an id no other
    timer has gives back the timers there were, in order; removing is
    idempotent; it keeps the timers of another id and the table entries of
    another id, and leaves neither a timer nor a table entry for the id. *)
Theorem removeTimer_undoes_addTimer
    (i : string) (g ic : option string) (mins : option Q) (b : Board) :
  (~ In i (map id (timers b)) ->
     timers (removeTimer i (board_add i g ic mins b)) = timers b) /\
  removeTimer i (removeTimer i b) = removeTimer i b /\
  (forall x, In x (timers b) -> id x <> i -> In x (timers (removeTimer i b))) /\
  (forall j, j <> i -> lastSeen (removeTimer i b) !! j = lastSeen b !! j) /\
  lastSeen (removeTimer i b) !! i = None /\
  ~ In i (map id (timers (removeTimer i b))).
Proof.
  split; [|split; [|split; [|split]]].
  - intros H. rewrite removeTimer_timers. cbn [board_add timers]. unfold addTimer.
    rewrite filter_app, (filter_other_ids i _ H).
    rewrite filter_cons_False by (cbn; tauto). apply app_nil_r.
  - unfold removeTimer. cbn [timers lastSeen]. f_equal.
    + apply filter_ids_again.
    + apply delete_delete_eq.
  - intros x Hin Hx. rewrite removeTimer_timers.
    apply list_elem_of_In, list_elem_of_filter. split; [exact Hx|].
    apply list_elem_of_In, Hin.
  - intros j Hj. cbn. apply lookup_delete_ne. congruence.
  - apply removeTimer_forgets.
Qed.

Lemma removeTimer_undoes_addTimer_witness :
  timers (removeTimer "b" two_tables) = [finished_timer].
Proof.
  assert (H : ~ In "b" (map id [finished_timer])) by (cbn; intuition discriminate).
  exact (proj1 (removeTimer_undoes_addTimer "b" (Some "Riftbound") None (Some 5%Q)
                  {| timers := [finished_timer]; lastSeen := ∅ |}) H).
Defined.

(** X7. Adding a timer under an id that no timer has, with a whole number
    of minutes that is not negative (or none, for the default of 50), keeps the
    ids distinct and keeps every timer within 0 <= remainingSec <=
    durationSec, and leaves the detector's table alone; the new timer is
    last, Paused, full, and 60 seconds per minute long. *)
Theorem addTimer_keeps_board_sound
    (i : string) (g ic : option string) (mins : option Q) (b : Board) :
  ~ In i (map id (timers b)) ->
  (forall m, mins = Some m -> (0 <= m)%Q /\ double_int m /\ double_int (m * 60)) ->
  List.NoDup (map id (timers b)) -> Forall in_range (timers b) ->
  let b' := board_add i g ic mins b in
  List.NoDup (map id (timers b')) /\ Forall in_range (timers b') /\
  lastSeen b' = lastSeen b /\
  exists tm,
    timers b' = timers b ++ [tm] /\ id tm = i /\ status tm = PAUSED /\
    remainingSec tm = durationSec tm /\
    (durationSec tm == match mins with Some m => m | None => 50 end * 60)%Q.
Proof.
  intros Hfresh Hmins Hnd Hall b'.
  destruct (addTimer_appends i g ic mins (timers b)) as (tm & Heq & Hid & Hst & Hrem & _).
  assert (Hdur : (durationSec tm == match mins with Some m => m | None => 50 end * 60)%Q).
  { unfold addTimer in Heq. apply app_inv_head in Heq. injection Heq as <-.
    cbn [durationSec]. destruct mins; reflexivity. }
  assert (Ht : timers b' = timers b ++ [tm]) by exact Heq.
  split; [|split; [|split; [reflexivity|]]].
  - rewrite Ht, map_app. cbn [map]. rewrite Hid.
    apply List.NoDup_app; [exact Hnd|distinct_ids|].
    intros x Hx [<-|[]]. contradiction.
  - rewrite Ht. apply Forall_app. split; [exact Hall|].
    apply Forall_singleton. unfold in_range. rewrite Hrem, Hdur.
    destruct mins as [m|]; [destruct (Hmins m eq_refl) as (Hm & _)|]; lra.
  - exists tm. repeat split; assumption.
Qed.

Lemma addTimer_keeps_board_sound_witness :
  List.NoDup (map id (timers two_tables)) /\ Forall in_range (timers two_tables).
Proof.
  pose proof (addTimer_keeps_board_sound "b" (Some "Riftbound") None (Some 5%Q)
                {| timers := [finished_timer]; lastSeen := ∅ |}) as H.
  cbv zeta in H. destruct H as (H1 & H2 & _).
  - cbn. intuition discriminate.
  - intros m [= <-]. split; [vm_compute; discriminate|].
    split; [exists 5|exists 300]; (split; [reflexivity|unfold exact_limit; lia]).
  - cbn. distinct_ids.
  - apply Forall_singleton. split; vm_compute; discriminate.
  - split; [exact H1|exact H2].
Defined.

(** ** Clicks, ticks and the detector together *)

Lemma click_fst (patch : Patch) (tm : GameTimer) (b : Board) :
  fst (click patch tm b)
  = fst (detect (lastSeen b) (updateTimer (timers b) (id tm) patch)).
Proof. unfold click. rewrite detector_pass_fst. reflexivity. Qed.

Lemma click_snd (patch : Patch) (tm : GameTimer) (b : Board) :
  snd (click patch tm b)
  = {| timers := updateTimer (timers b) (id tm) patch;
       lastSeen := snd (detect (lastSeen b) (updateTimer (timers b) (id tm) patch)) |}.
Proof. unfold click. rewrite detector_pass_snd. reflexivity. Qed.

(** X8. Start on a Finished timer that was announced (0 <= remainingSec <= 1,
    sentinel recorded; ids distinct): the click itself announces no Finished,
    the timer is Running on the board, and the pass of the next tick
    announces Finished for it a second time. *)
Theorem restarted_timer_finishes_again (b : Board) (tm : GameTimer) :
  List.NoDup (map id (timers b)) -> In tm (timers b) ->
  status tm = FINISHED -> (0 <= remainingSec tm <= 1)%Q ->
  lastSeen b !! id tm = Some (-1) ->
  let started := merge tm (startPausePatch tm) in
  let b1 := snd (click (startPausePatch tm) tm b) in
  In started (timers b1) /\ status started = RUNNING /\
  ~ In (Finished (id tm)) (fst (click (startPausePatch tm) tm b)) /\
  about (id tm) (fst (tick_round b1)) = [Finished (id tm)].
Proof.
  intros Hnd Hin Hf [H0 H1] Hseen started b1.
  assert (Hst : status started = RUNNING).
  { unfold started. change (status (apply_op OpStartPause tm) = RUNNING).
    rewrite start_pause_status, Hf. reflexivity. }
  assert (Hid : id started = id tm) by reflexivity.
  assert (Hrem : remainingSec started = remainingSec tm) by reflexivity.
  set (t1 := updateTimer (timers b) (id tm) (startPausePatch tm)).
  assert (Hin1 : In started t1) by (apply updateTimer_member, Hin).
  assert (Hnd1 : List.NoDup (map id t1))
    by (unfold t1; rewrite updateTimer_ids by reflexivity; exact Hnd).
  destruct (detect_local t1 (lastSeen b) started Hnd1 Hin1) as [Ha Hl].
  rewrite (detect_timer_counting _ started) in Ha, Hl by (rewrite Hst; discriminate).
  cbn [fst snd] in Ha, Hl. rewrite Hid, Hrem in Ha, Hl. rewrite lookup_insert_eq in Hl.
  assert (Hc : 0 <= Qceiling (remainingSec tm)).
  { rewrite <- (Qceiling_Z 0). apply Qceiling_resp_le. exact H0. }
  assert (Hb1 : b1 = {| timers := t1; lastSeen := snd (detect (lastSeen b) t1) |})
    by (unfold b1; apply click_snd).
  split; [rewrite Hb1; exact Hin1|]. split; [exact Hst|]. split.
  - rewrite click_fst. fold t1. intros Hfin.
    assert (Hfin' : In (Finished (id tm)) (about (id tm) (fst (detect (lastSeen b) t1))))
      by (apply in_about; split; [reflexivity|exact Hfin]).
    rewrite Ha in Hfin'. destruct (_ && _); [|destruct Hfin'].
    destruct Hfin' as [Hx|[]]. discriminate Hx.
  - rewrite tick_round_fst, Hb1. cbn [timers lastSeen].
    assert (Hnd2 : List.NoDup (map id (tick t1))) by (rewrite tick_ids; exact Hnd1).
    pose proof (tick_member _ _ Hin1) as Hin2.
    destruct (tick_timer_last_second started Hst) as [Hfin2 _]; [rewrite Hrem; exact H1|].
    destruct (detect_local (tick t1) (snd (detect (lastSeen b) t1)) (tick_timer started)
                Hnd2 Hin2) as [Ha2 _].
    rewrite tick_timer_id, Hid in Ha2. rewrite Ha2.
    rewrite (detect_timer_finished_new _ _ Hfin2); [rewrite tick_timer_id; reflexivity|].
    rewrite tick_timer_id, Hid, Hl. intros [= He]. lia.
Qed.

Lemma restarted_timer_finishes_again_witness :
  about "t3" (fst (tick_round (snd (click (startPausePatch finished_timer) finished_timer
                                       (snd (detector_pass two_tables))))))
  = [Finished "t3"].
Proof.
  pose proof (restarted_timer_finishes_again (snd (detector_pass two_tables))
                finished_timer) as H.
  cbv zeta in H. destruct H as (_ & _ & _ & H).
  - cbn. distinct_ids.
  - left. reflexivity.
  - reflexivity.
  - split; vm_compute; discriminate.
  - vm_compute. reflexivity.
  - exact H.
Defined.

(** X9. A Running timer whose remainingSec rounds up to -1 (as the loader
    can hand over): the pass writes -1, the value that is also the sentinel,
    for it; the next tick makes it Finished, and no pass ever announces
    Finished for it. *)
Theorem negative_timer_finishes_silently (n : nat) (b : Board) (tm : GameTimer) :
  List.NoDup (map id (timers b)) -> In tm (timers b) ->
  status tm = RUNNING -> Qceiling (remainingSec tm) = -1 ->
  let b1 := snd (detector_pass b) in
  lastSeen b1 !! id tm = Some (-1) /\
  status (tick_timer tm) = FINISHED /\
  In (tick_timer tm) (timers (snd (tick_round b1))) /\
  about (id tm) (fst (tick_rounds n b1)) = [].
Proof.
  intros Hnd Hin Hs Hc b1.
  destruct (detect_local (timers b) (lastSeen b) tm Hnd Hin) as [_ Hl].
  rewrite (detect_timer_counting _ tm) in Hl by (rewrite Hs; discriminate).
  cbn [snd] in Hl. rewrite lookup_insert_eq, Hc in Hl.
  assert (Hb1 : b1 = {| timers := timers b;
                        lastSeen := snd (detect (lastSeen b) (timers b)) |})
    by (unfold b1; apply detector_pass_snd).
  assert (Hneg : (remainingSec tm <= 1)%Q).
  { destruct (Qceiling_bounds (remainingSec tm)) as [_ Hup]. rewrite Hc in Hup.
    change (inject_Z (-1)) with (-1)%Q in Hup. lra. }
  destruct (tick_timer_last_second tm Hs Hneg) as [Hfin _].
  split; [rewrite Hb1; exact Hl|]. split; [exact Hfin|]. split.
  - rewrite tick_round_snd, Hb1. cbn [timers]. apply tick_member, Hin.
  - destruct n as [|n]; [reflexivity|].
    rewrite tick_rounds_S. cbn [fst]. rewrite about_app, tick_round_fst, tick_round_snd.
    rewrite Hb1. cbn [timers lastSeen].
    assert (Hnd' : List.NoDup (map id (tick (timers b)))) by (rewrite tick_ids; exact Hnd).
    pose proof (tick_member _ _ Hin) as Hin'.
    pose proof (tick_timer_id tm) as Hid.
    destruct (detect_finished_silent (tick (timers b))
                (snd (detect (lastSeen b) (timers b))) (tick_timer tm) Hnd' Hin' Hfin)
      as [Ha Hl']; [rewrite Hid; exact Hl|].
    rewrite Hid in Ha, Hl'. rewrite Ha.
    destruct (tick_rounds_finished_silent n
                {| timers := tick (timers b);
                   lastSeen := snd (detect (snd (detect (lastSeen b) (timers b)))
                                      (tick (timers b))) |}
                (tick_timer tm) Hnd' Hin' Hfin) as (Hsil & _);
      [rewrite Hid; exact Hl'|].
    rewrite Hid in Hsil. rewrite Hsil. reflexivity.
Qed.

Lemma negative_timer_finishes_silently_witness :
  about "n2" (fst (tick_rounds 5 (snd (detector_pass below_zero_board)))) = [] /\
  map status (timers (snd (tick_round (snd (detector_pass below_zero_board)))))
  = [FINISHED].
Proof.
  pose proof (negative_timer_finishes_silently 5 below_zero_board
                (normalize sample_fresh_id 0 below_zero_record)) as H.
  cbv zeta in H. destruct H as (_ & _ & _ & H).
  - cbn. distinct_ids.
  - left. reflexivity.
  - reflexivity.
  - reflexivity.
  - split; [exact H|]. vm_compute. reflexivity.
Defined.

(** ** Saving and loading *)

(** X10. What a reload makes of a saved collection.  A timer whose id and
    game are not empty comes back at its place with the same id, game,
    durationSec, status and announceAt; pinned comes back as a boolean, a
    missing or empty icon as the default icon; remainingSec comes back
    unchanged when it is at most durationSec and as durationSec otherwise; a
    timer within its range comes back within its range. *)
Theorem reload_keeps_saved_timers
    (fresh_id : nat -> string) (saved : list GameTimer) (k : nat) (tm : GameTimer) :
  saved !! k = Some tm -> id tm <> "" -> game tm <> "" ->
  length (restore fresh_id (Some (map stored saved))) = length saved /\
  exists tm',
    restore fresh_id (Some (map stored saved)) !! k = Some tm' /\
    id tm' = id tm /\ game tm' = game tm /\
    durationSec tm' = durationSec tm /\ status tm' = status tm /\
    announceAt tm' = announceAt tm /\
    pinned tm' = Some (is_pinned tm) /\
    icon tm' = Some (or_else (icon tm) default_icon) /\
    ((remainingSec tm <= durationSec tm)%Q ->
       (remainingSec tm' == remainingSec tm)%Q) /\
    ((durationSec tm <= remainingSec tm)%Q ->
       (remainingSec tm' == durationSec tm)%Q) /\
    (in_range tm -> in_range tm').
Proof.
  intros Hk Hid Hgame. split.
  - unfold restore. rewrite length_imap, length_map. reflexivity.
  - exists (normalize fresh_id k (stored tm)).
    split; [rewrite restore_lookup, list_lookup_fmap, Hk; reflexivity|].
    unfold normalize, stored.
    cbn [st_id st_game st_icon st_durationSec st_remainingSec st_minutes
         st_status st_announceAt st_pinned
         id game icon durationSec remainingSec status announceAt pinned].
    rewrite (or_else_some _ _ Hid), (or_else_some _ _ Hgame), status_name_read.
    split; [reflexivity|]. split; [reflexivity|]. split; [reflexivity|].
    split; [reflexivity|]. split; [reflexivity|].
    split; [unfold is_pinned; destruct (pinned tm) as [[|]|]; reflexivity|].
    split; [reflexivity|].
    split; [intros H; apply Q.min_r, H|].
    split; [intros H; apply Q.min_l, H|].
    intros [H0 Hd]. unfold in_range. cbn [remainingSec durationSec].
    rewrite (Q.min_r _ _ Hd). split; assumption.
Qed.

Lemma reload_keeps_saved_timers_witness :
  exists tm',
    restore sample_fresh_id (Some (map stored (timers two_tables))) !! 0%nat = Some tm' /\
    id tm' = "t3" /\ (remainingSec tm' == 0)%Q /\ icon tm' = Some default_icon /\
    status tm' = FINISHED.
Proof.
  assert (Hk : timers two_tables !! 0%nat = Some finished_timer) by reflexivity.
  destruct (reload_keeps_saved_timers sample_fresh_id _ _ _ Hk)
    as (_ & tm' & Hl & Hid & _ & _ & Hst & _ & _ & Hic & Hrem & _).
  - discriminate.
  - discriminate.
  - exists tm'. split; [exact Hl|]. split; [exact Hid|].
    split; [|split; [exact Hic|exact Hst]].
    rewrite Hrem; [reflexivity|]. vm_compute. discriminate.
Defined.

(** ** Nudges and the duration field *)

(** X11. The nudges on a timer with a whole number of seconds left.
    +1 minute then -1 minute gives back a remainingSec that was not
    negative; -1 minute then +1 minute gives it back only from 60 seconds
    up, and gives 60 seconds below that.  Neither nudge touches anything but
    remainingSec. *)
Theorem nudges_compose (tm : GameTimer) :
  (0 <= remainingSec tm)%Q ->
  double_int (remainingSec tm) -> double_int (remainingSec tm + 60) ->
  (remainingSec (apply_ops [OpPlusMinute; OpMinusMinute] tm) == remainingSec tm)%Q /\
  ((60 <= remainingSec tm)%Q ->
     (remainingSec (apply_ops [OpMinusMinute; OpPlusMinute] tm) == remainingSec tm)%Q) /\
  ((remainingSec tm <= 60)%Q ->
     (remainingSec (apply_ops [OpMinusMinute; OpPlusMinute] tm) == 60)%Q) /\
  same_settings tm (apply_op OpPlusMinute tm) /\
  same_settings tm (apply_op OpMinusMinute tm) /\
  status (apply_op OpPlusMinute tm) = status tm /\
  status (apply_op OpMinusMinute tm) = status tm.
Proof.
  intros H0 _ _. cbn. split; [|split; [|split]].
  - destruct (Q.max_spec 0 (remainingSec tm + 60 - 60)) as [[Ha Ea]|[Ha Ea]];
      rewrite Ea; lra.
  - intros H. destruct (Q.max_spec 0 (remainingSec tm - 60)) as [[Ha Ea]|[Ha Ea]];
      rewrite Ea; lra.
  - intros H. destruct (Q.max_spec 0 (remainingSec tm - 60)) as [[Ha Ea]|[Ha Ea]];
      rewrite Ea; lra.
  - unfold same_settings. cbn. tauto.
Qed.

Lemma nudges_compose_witness :
  (remainingSec (apply_ops [OpMinusMinute; OpPlusMinute] ten_second_timer) == 60)%Q /\
  (remainingSec (apply_ops [OpPlusMinute; OpMinusMinute] ten_second_timer) == 10)%Q.
Proof.
  assert (H0 : (0 <= remainingSec ten_second_timer)%Q) by (vm_compute; discriminate).
  assert (H1 : double_int (remainingSec ten_second_timer))
    by (exists 10; split; [reflexivity|unfold exact_limit; lia]).
  assert (H2 : double_int (remainingSec ten_second_timer + 60))
    by (exists 70; split; [reflexivity|unfold exact_limit; lia]).
  destruct (nudges_compose ten_second_timer H0 H1 H2) as (Hpm & _ & Hmp & _).
  split; [|exact Hpm]. apply Hmp. vm_compute. discriminate.
Defined.

(** X12. The minutes field of a card, whatever the timer, when what is
    typed is empty, not a number, at most 1, or a whole number: the new
    durationSec is 60 times the number typed when that is at least 1, and 60
    when the field is empty, not a number, zero or below 1; remainingSec is
    cut down to the new durationSec and never raised; status, id and
    thresholds stay. *)
Theorem minutes_field_sets_duration (tm : GameTimer) (value : option Q) :
  (forall q, value = Some q -> (1 < q)%Q -> double_int q /\ double_int (q * 60)) ->
  let tm' := apply_op (OpMinutes value) tm in
  (60 <= durationSec tm')%Q /\
  (remainingSec tm' <= durationSec tm')%Q /\
  (remainingSec tm' <= remainingSec tm)%Q /\
  ((remainingSec tm <= durationSec tm')%Q -> (remainingSec tm' == remainingSec tm)%Q) /\
  (forall q, value = Some q -> (1 <= q)%Q -> (durationSec tm' == q * 60)%Q) /\
  (forall q, value = Some q -> (q <= 1)%Q -> (durationSec tm' == 60)%Q) /\
  (value = None -> (durationSec tm' == 60)%Q) /\
  status tm' = status tm /\ id tm' = id tm /\ announceAt tm' = announceAt tm.
Proof.
  intros _. cbn. set (mins := Qmax 1 (number_or_one value)).
  assert (Hm : (1 <= mins)%Q) by apply Q.le_max_l.
  split; [lra|]. split; [apply Q.le_min_r|]. split; [apply Q.le_min_l|].
  split; [intros H; apply Q.min_l, H|].
  split; [|split; [|split]].
  - intros q -> Hq. unfold mins, number_or_one.
    destruct (Qeq_bool q 0) eqn:E; [apply Qeq_bool_iff in E; lra|].
    rewrite (Q.max_r 1 q Hq). reflexivity.
  - intros q -> Hq. unfold mins, number_or_one.
    destruct (Qeq_bool q 0) eqn:E; [reflexivity|].
    rewrite (Q.max_l 1 q Hq). reflexivity.
  - intros ->. reflexivity.
  - tauto.
Qed.

Lemma minutes_field_sets_duration_witness :
  (durationSec (apply_op (OpMinutes (Some 3%Q)) full_timer) == 180)%Q /\
  (remainingSec (apply_op (OpMinutes (Some 3%Q)) full_timer) <= 180)%Q.
Proof.
  assert (Hw : forall q, Some 3%Q = Some q -> (1 < q)%Q ->
                 double_int q /\ double_int (q * 60)).
  { intros q [= <-] _.
    split; [exists 3|exists 180]; (split; [reflexivity|unfold exact_limit; lia]). }
  pose proof (minutes_field_sets_duration full_timer (Some 3%Q) Hw) as H.
  cbv zeta in H. destruct H as (_ & Hle & _ & _ & Hd & _).
  assert (Hdur : (durationSec (apply_op (OpMinutes (Some 3%Q)) full_timer) == 180)%Q).
  { rewrite (Hd 3%Q eq_refl); [reflexivity|]. vm_compute. discriminate. }
  split; [exact Hdur|]. rewrite <- Hdur. exact Hle.
Defined.

(** ** What the board shows *)

Lemma unfinished_true (t : GameTimer) : unfinished t = true <-> status t <> FINISHED.
Proof.
  unfold unfinished. rewrite negb_true_iff. split.
  - intros H. apply bool_decide_eq_false in H. exact H.
  - intros H. apply bool_decide_eq_false. exact H.
Qed.

Lemma filter_sublist (f : GameTimer -> bool) (l : list GameTimer) :
  List.filter f l `sublist_of` l.
Proof.
  induction l as [|x l IH]; [constructor|].
  cbn. destruct (f x); [apply sublist_skip|apply sublist_cons]; exact IH.
Qed.

Lemma filter_empty_length (f : GameTimer -> bool) (l : list GameTimer) (x : GameTimer) :
  In x l -> f x = true -> (length (List.filter f l) =? 0)%nat = false.
Proof.
  intros Hin Hf. apply Nat.eqb_neq. intros H0.
  assert (Hx : In x (List.filter f l)) by (apply filter_In; split; assumption).
  destruct (List.filter f l); [destruct Hx|discriminate H0].
Qed.

Lemma in_take (n : nat) (l : list GameTimer) (x : GameTimer) :
  In x (take n l) -> In x l.
Proof.
  revert l. induction n as [|n IH]; intros l H.
  - rewrite take_0 in H. destruct H.
  - destruct l as [|y l]; [destruct H|].
    cbn [take firstn] in H. destruct H as [H|H]; [left; exact H|right; apply IH, H].
Qed.

Lemma source_sublist (timers : list GameTimer) : source timers `sublist_of` timers.
Proof.
  unfold source.
  destruct (negb _); [apply filter_sublist|].
  destruct (negb _); [apply filter_sublist|reflexivity].
Qed.

Lemma source_nonempty (timers : list GameTimer) : timers <> [] -> source timers <> [].
Proof.
  intros H. unfold source.
  destruct (length (pinned_unfinished timers) =? 0)%nat eqn:E1; cbn [negb].
  - destruct (length (running timers) =? 0)%nat eqn:E2; cbn [negb]; [exact H|].
    apply Nat.eqb_neq in E2. intros E. rewrite E in E2. apply E2. reflexivity.
  - apply Nat.eqb_neq in E1. intros E. rewrite E in E1. apply E1. reflexivity.
Qed.

(** X13. What display mode shows: at most four timers, taken in order from
    the timers of the board.  When some timer is pinned and not Finished,
    only such timers are shown; when some timer is not Finished, no Finished
    timer is shown; when all are Finished, the first four are shown; a board
    with timers never shows an empty display.  Outside display mode all
    timers are shown. *)
Theorem display_mode_selection (timers : list GameTimer) :
  let shown := displayList true timers in
  (length shown <= 4)%nat /\
  shown `sublist_of` timers /\
  ((exists x, In x timers /\ is_pinned x = true /\ status x <> FINISHED) ->
     forall y, In y shown -> is_pinned y = true /\ status y <> FINISHED) /\
  ((exists x, In x timers /\ status x <> FINISHED) ->
     forall y, In y shown -> status y <> FINISHED) /\
  ((forall x, In x timers -> status x = FINISHED) -> shown = take 4 timers) /\
  (timers <> [] -> shown <> []) /\
  count true timers = length shown /\
  displayList false timers = timers.
Proof.
  intros shown. unfold shown, displayList.
  split; [rewrite length_take; lia|].
  split; [etransitivity; [apply sublist_take|apply source_sublist]|].
  split; [|split; [|split; [|split; [|split; reflexivity]]]].
  - intros (x & Hin & Hp & Hs) y Hy.
    apply in_take in Hy. unfold source, pinned_unfinished, running in Hy.
    rewrite (filter_empty_length _ timers x Hin) in Hy
      by (rewrite Hp; apply andb_true_iff; split; [reflexivity|apply unfinished_true, Hs]).
    cbn [negb] in Hy. apply filter_In in Hy as [_ Hy].
    apply andb_true_iff in Hy as [Hy1 Hy2]. split; [exact Hy1|apply unfinished_true, Hy2].
  - intros (x & Hin & Hs) y Hy.
    apply in_take in Hy. unfold source, pinned_unfinished, running in Hy.
    destruct (negb (length (List.filter _ timers) =? 0)%nat).
    + apply filter_In in Hy as [_ Hy]. apply andb_true_iff in Hy as [_ Hy2].
      apply unfinished_true, Hy2.
    + rewrite (filter_empty_length _ timers x Hin) in Hy by (apply unfinished_true, Hs).
      cbn [negb] in Hy. apply filter_In in Hy as [_ Hy]. apply unfinished_true, Hy.
  - intros Hall. f_equal. unfold source.
    assert (Hr : running timers = []).
    { unfold running. destruct (List.filter unfinished timers) as [|z l] eqn:E; [reflexivity|].
      assert (Hz : In z (List.filter unfinished timers)) by (rewrite E; left; reflexivity).
      apply filter_In in Hz as [Hz1 Hz2]. apply unfinished_true in Hz2.
      exfalso. apply Hz2, Hall, Hz1. }
    assert (Hp : pinned_unfinished timers = []).
    { unfold pinned_unfinished.
      destruct (List.filter _ timers) as [|z l] eqn:E; [reflexivity|].
      assert (Hz : In z (List.filter (fun t => is_pinned t && unfinished t) timers))
        by (rewrite E; left; reflexivity).
      apply filter_In in Hz as [Hz1 Hz2]. apply andb_true_iff in Hz2 as [_ Hz2].
      apply unfinished_true in Hz2. exfalso. apply Hz2, Hall, Hz1. }
    rewrite Hp, Hr. reflexivity.
  - intros Hne E. apply (source_nonempty timers Hne).
    destruct (source timers); [reflexivity|discriminate E].
Qed.

Lemma display_mode_selection_witness :
  (exists x, In x (timers two_tables) /\ status x <> FINISHED) /\
  (forall y, In y (displayList true (timers two_tables)) -> status y <> FINISHED).
Proof.
  assert (Hex : exists x, In x (timers two_tables) /\ status x <> FINISHED).
  { eexists. split; [right; left; reflexivity|discriminate]. }
  split; [exact Hex|].
  exact (proj1 (proj2 (proj2 (proj2 (display_mode_selection (timers two_tables))))) Hex).
Defined.

Lemma wall_tiles_placed (shown : list GameTimer) :
  (2 <= length shown <= 4)%nat ->
  map snd (wall_tiles shown) = map Some (positions (length shown)) /\
  length (positions (length shown)) = length shown /\
  List.NoDup (positions (length shown)) /\
  map fst (wall_tiles shown) = shown.
Proof.
  intros H. destruct shown as [|a [|b [|c [|d [|e l]]]]]; cbn [length] in H; try lia.
  - repeat split; try reflexivity.
    repeat (apply List.NoDup_cons; [cbn; intuition discriminate|]). apply List.NoDup_nil.
  - repeat split; try reflexivity.
    repeat (apply List.NoDup_cons; [cbn; intuition discriminate|]). apply List.NoDup_nil.
  - repeat split; try reflexivity.
    repeat (apply List.NoDup_cons; [cbn; intuition discriminate|]). apply List.NoDup_nil.
Qed.

(** X14. Which rendering the board returns.  Outside display mode it is
    the admin view of all timers.  In display mode a board without timers
    also gets the admin view; a board with timers gets the single display
    with the one timer of the display list, or the wall with the two to four
    timers of the display list, each on a position of its own
    (L and R for two; TL, TR, BL and BR for three and four). *)
Theorem view_selection (timers : list GameTimer) :
  view false timers = AdminView timers /\
  (timers = [] -> view true timers = AdminView []) /\
  (timers <> [] ->
     (exists tm, view true timers = SingleDisplay (Some tm) /\
                 displayList true timers = [tm]) \/
     (view true timers = WallDisplay (displayList true timers) /\
      (2 <= length (displayList true timers) <= 4)%nat /\
      map snd (wall_tiles (displayList true timers))
      = map Some (positions (length (displayList true timers))) /\
      List.NoDup (positions (length (displayList true timers))) /\
      map fst (wall_tiles (displayList true timers)) = displayList true timers)).
Proof.
  split; [reflexivity|]. split; [intros ->; reflexivity|].
  intros Hne. unfold view, count. cbn [andb].
  assert (Hlen : (length (displayList true timers) <= 4)%nat)
    by (unfold displayList; rewrite length_take; lia).
  assert (Hnn : displayList true timers <> []).
  { unfold displayList. intros E. apply (source_nonempty timers Hne).
    destruct (source timers); [reflexivity|discriminate E]. }
  destruct (displayList true timers) as [|a [|b l]] eqn:E.
  - contradiction.
  - left. exists a. split; reflexivity.
  - right. cbn [length] in Hlen.
    assert (H24 : (2 <= length (a :: b :: l) <= 4)%nat) by (cbn [length]; lia).
    destruct (wall_tiles_placed (a :: b :: l) H24) as (H1 & _ & H2 & H3).
    split; [reflexivity|]. split; [exact H24|]. split; [exact H1|].
    split; [exact H2|exact H3].
Qed.

Lemma view_selection_witness :
  view true (timers two_tables) = SingleDisplay (last (timers two_tables)).
Proof.
  assert (Hne : timers two_tables <> []) by discriminate.
  destruct (proj2 (proj2 (view_selection (timers two_tables))) Hne)
    as [(tm & Hv & Hd)|(_ & Hlen & _)].
  - rewrite Hv. f_equal. vm_compute in Hd. injection Hd as <-. reflexivity.
  - exfalso. vm_compute in Hlen. destruct Hlen as [Hlen _]. lia.
Defined.

(** ** The speech queue *)

Lemma nonempty_app (a b : list string) : nonempty (a ++ b) = nonempty a ++ nonempty b.
Proof. unfold nonempty. apply List.filter_app. Qed.

Lemma speech_run_cons (e : SpeechEvent) (events : list SpeechEvent) (s : Speech) :
  speech_run (e :: events) s =
  (fst (speech_step e s) ++ fst (speech_run events (snd (speech_step e s))),
   snd (speech_run events (snd (speech_step e s)))).
Proof.
  cbn [speech_run]. destruct (speech_step e s) as [m1 s1]. cbn [fst snd].
  destruct (speech_run events s1) as [m2 s2]. reflexivity.
Qed.

Lemma started_texts_app (a b : list SpeechMark) :
  started_texts (a ++ b) = started_texts a ++ started_texts b.
Proof.
  induction a as [|[t|] a IH]; cbn; [reflexivity| |exact IH]. rewrite IH. reflexivity.
Qed.

(** One event: what is started and what stays queued, against what was
    queued and what is taken in. *)
Lemma speech_step_keeps_texts (e : SpeechEvent) (s : Speech) :
  started_texts (fst (speech_step e s)) ++ nonempty (queue (snd (speech_step e s)))
  = nonempty (queue s ++ accepted (enabled s) [e]) /\
  enabled (snd (speech_step e s))
  = match e with SetEnabled b => b | _ => enabled s end.
Proof.
  destruct e as [text| | |b]; cbn [speech_step accepted].
  - unfold speak. destruct (enabled s) eqn:E;
      cbn [fst snd queue enabled started_texts app]; rewrite ?app_nil_r;
      (split; [reflexivity|first [reflexivity|exact E]]).
  - rewrite app_nil_r. unfold poll.
    destruct (enabled s) eqn:E; cbn [negb];
      [|cbn [fst snd started_texts app]; split; [reflexivity|exact E]].
    destruct (speaking s);
      [cbn [fst snd started_texts app]; split; [reflexivity|exact E]|].
    destruct (queue s) as [|next rest] eqn:Q;
      [cbn [fst snd started_texts app]; rewrite Q; split; [reflexivity|exact E]|].
    destruct (bool_decide_reflect (next = "")) as [Hn|Hn];
      cbn [fst snd queue enabled started_texts app];
      (split; [|first [reflexivity|exact E]]).
    + unfold nonempty. cbn [List.filter].
      rewrite (bool_decide_eq_true_2 _ Hn). reflexivity.
    + unfold nonempty. cbn [List.filter].
      rewrite (bool_decide_eq_false_2 _ Hn). reflexivity.
  - cbn [fst snd queue enabled utterance_ended started_texts app].
    rewrite app_nil_r. split; reflexivity.
  - cbn [fst snd queue enabled set_enabled started_texts app].
    rewrite app_nil_r. split; reflexivity.
Qed.

Lemma accepted_cons (en : bool) (e : SpeechEvent) (events : list SpeechEvent) :
  accepted en (e :: events)
  = accepted en [e] ++ accepted (match e with SetEnabled b => b | _ => en end) events.
Proof. destruct e; cbn; rewrite ?app_nil_r; reflexivity. Qed.

(** X15. The speech queue loses nothing, repeats nothing and keeps the
    order: after any run of events, the texts of the utterances started,
    followed by the texts still queued, are the texts queued at the start
    followed by the texts said while speech was enabled, empty texts left
    out.  A text said while speech is disabled is dropped, and an empty
    text is taken off the queue without an utterance. *)
Theorem speech_queue_is_fifo (events : list SpeechEvent) (s : Speech) :
  started_texts (fst (speech_run events s))
    ++ nonempty (queue (snd (speech_run events s)))
  = nonempty (queue s ++ accepted (enabled s) events).
Proof.
  revert s. induction events as [|e events IH]; intros s.
  - cbn. rewrite app_nil_r. reflexivity.
  - rewrite speech_run_cons. cbn [fst snd].
    destruct (speech_step_keeps_texts e s) as [Hstep Hen].
    rewrite started_texts_app, <- app_assoc, IH, Hen.
    rewrite nonempty_app, app_assoc, Hstep.
    rewrite (accepted_cons (enabled s) e events).
    rewrite <- nonempty_app, <- app_assoc. reflexivity.
Qed.

Lemma speech_step_no_overlap (e : SpeechEvent) (s : Speech) (rest : list SpeechMark) :
  no_overlap (speaking (snd (speech_step e s))) rest = true ->
  no_overlap (speaking s) (fst (speech_step e s) ++ rest) = true.
Proof.
  destruct e as [text| | |b]; cbn [speech_step].
  - unfold speak. destruct (enabled s); cbn; auto.
  - unfold poll. destruct (enabled s); cbn [negb]; [|cbn; auto].
    destruct (speaking s) eqn:Sp; [cbn; rewrite Sp; auto|].
    destruct (queue s) as [|next rest']; [cbn; rewrite Sp; auto|].
    destruct (bool_decide (next = "")); cbn; rewrite ?Sp; auto.
  - cbn. auto.
  - cbn. auto.
Qed.

(** X16. No utterance is started while another is on: in the log of any
    run of events, a start comes only when nothing was being spoken at the
    start of the run or an end came since the last start. *)
Theorem speech_never_overlaps (events : list SpeechEvent) (s : Speech) :
  no_overlap (speaking s) (fst (speech_run events s)) = true /\
  (speaking s = true ->
   forall text, hd_error (fst (speech_run events s)) <> Some (Started text)).
Proof.
  assert (Hgen : forall evs st, no_overlap (speaking st) (fst (speech_run evs st)) = true).
  { intros evs. induction evs as [|e evs IH]; intros st; [reflexivity|].
    rewrite speech_run_cons. cbn [fst]. apply speech_step_no_overlap, IH. }
  split; [apply Hgen|].
  intros Hsp text Hhd. specialize (Hgen events s). rewrite Hsp in Hgen.
  destruct (fst (speech_run events s)) as [|[t|] log]; try discriminate Hhd.
  cbn in Hgen. discriminate Hgen.
Qed.

Lemma speech_never_overlaps_witness :
  hd_error (fst (speech_run [Say "one"; Poll; Ended; Poll]
                   {| enabled := true; queue := []; speaking := true |}))
  <> Some (Started "one").
Proof.
  exact (proj2 (speech_never_overlaps [Say "one"; Poll; Ended; Poll]
                  {| enabled := true; queue := []; speaking := true |}) eq_refl "one").
Defined.

(** ** The clock tells the whole seconds *)

Lemma str_app_cons (c : ascii) (a b : string) :
  String c a +:+ b = String c (a +:+ b).
Proof. reflexivity. Qed.

Lemma str_length_app (a b : string) :
  String.length (a +:+ b) = (String.length a + String.length b)%nat.
Proof.
  induction a as [|c a IH]; [reflexivity|].
  rewrite str_app_cons. cbn [String.length]. rewrite IH. reflexivity.
Qed.

Lemma str_app_inv (a1 a2 t1 t2 : string) :
  String.length t1 = String.length t2 ->
  a1 +:+ t1 = a2 +:+ t2 -> a1 = a2 /\ t1 = t2.
Proof.
  intros Hlen. revert a2. induction a1 as [|c a1 IH]; intros [|d a2] H.
  - split; [reflexivity|exact H].
  - exfalso. change ("" +:+ t1) with t1 in H. rewrite H, str_app_cons in Hlen.
    cbn [String.length] in Hlen. rewrite str_length_app in Hlen. lia.
  - exfalso. change ("" +:+ t2) with t2 in H. rewrite <- H, str_app_cons in Hlen.
    cbn [String.length] in Hlen. rewrite str_length_app in Hlen. lia.
  - rewrite !str_app_cons in H. injection H as -> H.
    destruct (IH a2 H) as [-> ->]. split; reflexivity.
Qed.

Lemma digit_inj (a b : Z) : 0 <= a < 10 -> 0 <= b < 10 -> digit a = digit b -> a = b.
Proof.
  intros Ha Hb H. unfold digit in H. apply (f_equal nat_of_ascii) in H.
  rewrite !nat_ascii_embedding in H by lia. lia.
Qed.

Lemma two_digits_inj (m n : Z) :
  0 <= m < 100 -> 0 <= n < 100 -> two_digits m = two_digits n -> m = n.
Proof.
  intros Hm Hn H. unfold two_digits in H. injection H as H1 H2.
  apply digit_inj in H1;
    [|split; [apply Z.div_pos; lia|apply Z.div_lt_upper_bound; lia]..].
  apply digit_inj in H2; [|apply Z.mod_pos_bound; lia..].
  rewrite (Z.div_mod m 10), (Z.div_mod n 10) by lia. rewrite H1, H2. reflexivity.
Qed.

Lemma pad_inj (a b : Z) : 0 <= a -> 0 <= b -> pad a = pad b -> a = b.
Proof.
  intros Ha Hb H.
  destruct (Z.lt_ge_cases a 100) as [La|La], (Z.lt_ge_cases b 100) as [Lb|Lb].
  - rewrite !pad_two_digits in H by lia. apply two_digits_inj in H; lia.
  - exfalso. destruct (pad_wide b Lb) as [_ Hw].
    rewrite <- H, pad_two_digits in Hw by lia. cbn in Hw. lia.
  - exfalso. destruct (pad_wide a La) as [_ Hw].
    rewrite H, pad_two_digits in Hw by lia. cbn in Hw. lia.
  - destruct (pad_wide a La) as [Ea _]. destruct (pad_wide b Lb) as [Eb _].
    rewrite Ea, Eb in H. unfold String_of in H. apply (inj pretty) in H. exact H.
Qed.

Lemma formatHHMMSS_join (totalSeconds : Q) :
  let s := Z.max 0 (Qfloor totalSeconds) in
  formatHHMMSS totalSeconds =
    (if s / 3600 =? 0 then "" else pad (s / 3600) +:+ ":")
    +:+ (two_digits ((s mod 3600) / 60) +:+ ":" +:+ two_digits (s mod 60)).
Proof.
  intros s. assert (Hs : 0 <= s) by apply Z.le_max_l.
  assert (Hh : 0 <= s / 3600) by (apply Z.div_pos; lia).
  assert (Hm : 0 <= (s mod 3600) / 60 < 60).
  { pose proof (Z.mod_pos_bound s 3600 ltac:(lia)) as Hb. split.
    - apply Z.div_pos; lia.
    - apply Z.div_lt_upper_bound; lia. }
  assert (Hsec : 0 <= s mod 60 < 60) by (apply Z.mod_pos_bound; lia).
  unfold formatHHMMSS. fold s.
  rewrite (pad_two_digits ((s mod 3600) / 60)) by lia.
  rewrite (pad_two_digits (s mod 60)) by lia.
  destruct (Z.ltb_spec 0 (s / 3600)) as [Hpos|Hz].
  - rewrite (proj2 (Z.eqb_neq (s / 3600) 0)) by lia.
    rewrite string_app_assoc. reflexivity.
  - replace (s / 3600) with 0 by lia. reflexivity.
Qed.

Lemma seconds_from_fields (s t : Z) :
  0 <= s -> 0 <= t ->
  s / 3600 = t / 3600 -> (s mod 3600) / 60 = (t mod 3600) / 60 ->
  s mod 60 = t mod 60 -> s = t.
Proof. intros Hs Ht H1 H2 H3. Z.div_mod_to_equations. lia. Qed.

(** X17. Two inputs get the same clock text exactly when they have the
    same whole seconds after flooring and clamping at zero: the text shows
    the whole seconds and nothing else.  In particular every negative input
    reads as zero, and a fraction of a second never shows. *)
Theorem formatHHMMSS_tells_whole_seconds (a b : Q) :
  formatHHMMSS a = formatHHMMSS b <-> Z.max 0 (Qfloor a) = Z.max 0 (Qfloor b).
Proof.
  split.
  - intros H. rewrite (formatHHMMSS_join a), (formatHHMMSS_join b) in H.
    cbv zeta in H.
    set (s := Z.max 0 (Qfloor a)) in *. set (t := Z.max 0 (Qfloor b)) in *.
    assert (Hs : 0 <= s) by apply Z.le_max_l.
    assert (Ht : 0 <= t) by apply Z.le_max_l.
    assert (Hhs : 0 <= s / 3600) by (apply Z.div_pos; lia).
    assert (Hht : 0 <= t / 3600) by (apply Z.div_pos; lia).
    assert (Hms : 0 <= (s mod 3600) / 60 < 100).
    { pose proof (Z.mod_pos_bound s 3600 ltac:(lia)). split;
        [apply Z.div_pos; lia|apply Z.div_lt_upper_bound; lia]. }
    assert (Hmt : 0 <= (t mod 3600) / 60 < 100).
    { pose proof (Z.mod_pos_bound t 3600 ltac:(lia)). split;
        [apply Z.div_pos; lia|apply Z.div_lt_upper_bound; lia]. }
    pose proof (Z.mod_pos_bound s 60 ltac:(lia)) as Hss.
    pose proof (Z.mod_pos_bound t 60 ltac:(lia)) as Hst.
    apply str_app_inv in H as [Hhead Htail]; [|reflexivity].
    unfold two_digits in Htail. cbv [String.append] in Htail.
    injection Htail as D1 D2 D3 D4.
    assert (Em : (s mod 3600) / 60 = (t mod 3600) / 60).
    { apply two_digits_inj; try lia. unfold two_digits. rewrite D1, D2. reflexivity. }
    assert (Esec : s mod 60 = t mod 60).
    { apply two_digits_inj; try lia. unfold two_digits. rewrite D3, D4. reflexivity. }
    assert (Eh : s / 3600 = t / 3600).
    { destruct (Z.eqb_spec (s / 3600) 0) as [E1|E1], (Z.eqb_spec (t / 3600) 0) as [E2|E2].
      - lia.
      - exfalso. apply (f_equal String.length) in Hhead.
        rewrite str_length_app in Hhead. cbn in Hhead. lia.
      - exfalso. apply (f_equal String.length) in Hhead.
        rewrite str_length_app in Hhead. cbn in Hhead. lia.
      - apply str_app_inv in Hhead as [Hp _]; [|reflexivity].
        apply pad_inj; assumption. }
    apply seconds_from_fields; assumption.
  - intros H. unfold formatHHMMSS. rewrite H. reflexivity.
Qed.

Lemma formatHHMMSS_tells_whole_seconds_witness :
  formatHHMMSS (-5) = formatHHMMSS (1 # 2) /\ formatHHMMSS 59 <> formatHHMMSS 60.
Proof.
  split.
  - apply (formatHHMMSS_tells_whole_seconds (-5) (1 # 2)). reflexivity.
  - intros H. apply (formatHHMMSS_tells_whole_seconds 59 60) in H. discriminate H.
Defined.

(** ** Which records load within range *)

(** X18. Which records load within range.  For a stored record whose
    durationSec is a number d, whatever its other fields: the timer has
    durationSec d and remainingSec <= d, and it is within 0 <= remainingSec
    <= durationSec exactly when d is not negative and a stored numeric
    remainingSec is not negative.  For a record whose durationSec is not a
    number, with the legacy minutes absent or a number: durationSec is at
    least 60, remainingSec <= durationSec, and the timer is within range
    exactly when a stored numeric remainingSec is not negative. *)
Theorem restore_in_range_iff (fresh_id : nat -> string) (i : nat) (t : StoredTimer) :
  let tm := normalize fresh_id i t in
  (forall d, st_durationSec t = Some (SNum d) ->
     durationSec tm = d /\ (remainingSec tm <= d)%Q /\
     (in_range tm <->
        (0 <= d)%Q /\ (forall r, st_remainingSec t = Some (SNum r) -> (0 <= r)%Q))) /\
  (is_number (st_durationSec t) = false ->
     (60 <= durationSec tm)%Q /\ (remainingSec tm <= durationSec tm)%Q /\
     (in_range tm <->
        (forall r, st_remainingSec t = Some (SNum r) -> (0 <= r)%Q))).
Proof.
  intros tm. subst tm. split.
  - intros d Hd. unfold normalize, in_range. cbn [remainingSec durationSec].
    rewrite Hd. split; [reflexivity|]. split; [apply Q.le_min_l|].
    destruct (st_remainingSec t) as [[| |r| | |]|]; split;
      try (intros [H0 _]; split; [|intros r' [=]; subst];
           match type of H0 with
           | (0 <= Qmin ?x ?y)%Q =>
               pose proof (Q.le_min_l x y); pose proof (Q.le_min_r x y); lra
           end);
      try (intros [H0 Hr]; try specialize (Hr _ eq_refl);
           split; [apply Q.min_glb; lra|apply Q.le_min_l]).
  - intros Hn.
    assert (Hdur : (60 <= durationSec (normalize fresh_id i t))%Q).
    { unfold normalize. cbn [durationSec].
      destruct (st_durationSec t) as [[| |d| | |]|]; try discriminate Hn;
        apply Q.le_max_l. }
    split; [exact Hdur|].
    split; [apply normalize_remaining_le_duration|].
    revert Hdur. unfold normalize, in_range. cbn [remainingSec durationSec].
    set (dur := match st_durationSec t with
                | Some (SNum d) => d
                | _ => Qmax 60 _
                end).
    intros Hdur.
    destruct (st_remainingSec t) as [[| |r| | |]|]; split;
      try (intros [H0 _] r' [=]; subst;
           match type of H0 with
           | (0 <= Qmin ?x ?y)%Q => pose proof (Q.le_min_r x y); lra
           end);
      try (intros Hr; try specialize (Hr _ eq_refl);
           split; [apply Q.min_glb; lra|apply Q.le_min_l]).
Qed.

Lemma restore_in_range_iff_witness :
  in_range (normalize sample_fresh_id 0 legacy_record) /\
  ~ in_range (normalize sample_fresh_id 0 below_zero_record).
Proof.
  pose proof (restore_in_range_iff sample_fresh_id 0 legacy_record) as H1.
  pose proof (restore_in_range_iff sample_fresh_id 0 below_zero_record) as H2.
  cbv zeta in H1, H2. destruct H1 as (_ & H1). destruct H2 as (H2 & _).
  split.
  - destruct (H1 eq_refl) as (_ & _ & Hiff). apply Hiff. intros r [=].
  - destruct (H2 100%Q eq_refl) as (_ & _ & Hiff).
    intros Hin. apply Hiff in Hin as [_ Hr].
    specialize (Hr _ eq_refl). vm_compute in Hr. apply Hr. reflexivity.
Defined.

(** ** The detector on a board that did not change *)

Lemma detect_ids (timers : list GameTimer) (seen : gmap string Z) (n : Notification) :
  In n (fst (detect seen timers)) -> In (notification_id n) (map id timers).
Proof.
  revert seen. induction timers as [|tm rest IH]; intros seen H; [destruct H|].
  rewrite detect_cons in H. cbn [fst] in H. apply in_app_or in H as [H|H].
  - left. destruct (decide (notification_id n = id tm)) as [E|E]; [symmetry; exact E|].
    exfalso.
    assert (Hn : In n (about (notification_id n) (fst (detect_timer seen tm))))
      by (apply in_about; split; [reflexivity|exact H]).
    rewrite detect_timer_about_other in Hn by exact E. destruct Hn.
  - right. apply (IH _ H).
Qed.

Lemma detect_timer_settles (seen : gmap string Z) (tm : GameTimer) :
  fst (detect_timer (snd (detect_timer seen tm)) tm) = [].
Proof.
  unfold detect_timer.
  destruct (bool_decide (status tm = FINISHED)).
  - destruct (bool_decide_reflect (seen !! id tm <> Some (-1))) as [Hs|Hs]; cbn [snd].
    + rewrite lookup_insert_eq.
      rewrite bool_decide_eq_false_2; [reflexivity|]. intros H. apply H. reflexivity.
    + rewrite (bool_decide_eq_false_2 _ Hs). reflexivity.
  - cbn [snd fst]. rewrite lookup_insert_eq.
    rewrite (bool_decide_eq_false_2 (Some _ <> Some _)) by (intros H; apply H; reflexivity).
    rewrite andb_false_r. reflexivity.
Qed.

(** X19. On a board with distinct ids a detector pass that follows a pass
    over the same timers emits nothing: running the effect again without a
    change of the timers, as a switch of display mode does, repeats no
    announcement. *)
Theorem detector_pass_settles (b : Board) :
  List.NoDup (map id (timers b)) ->
  fst (detector_pass (snd (detector_pass b))) = [] /\
  timers (snd (detector_pass b)) = timers b.
Proof.
  intros Hnd. rewrite detector_pass_snd. split; [|reflexivity].
  rewrite detector_pass_fst. cbn [timers lastSeen].
  set (seen1 := snd (detect (lastSeen b) (timers b))).
  destruct (fst (detect seen1 (timers b))) as [|n out] eqn:E; [reflexivity|].
  exfalso.
  assert (Hn : In n (fst (detect seen1 (timers b)))) by (rewrite E; left; reflexivity).
  pose proof (detect_ids _ _ _ Hn) as Hid.
  apply in_map_iff in Hid as (tm & Htm & Hin).
  destruct (detect_local (timers b) (lastSeen b) tm Hnd Hin) as [_ Hl1].
  fold seen1 in Hl1.
  destruct (detect_local (timers b) seen1 tm Hnd Hin) as [Ha2 _].
  destruct (detect_timer_reads_own seen1 (snd (detect_timer (lastSeen b) tm)) tm Hl1)
    as [Hsame _].
  rewrite Hsame, detect_timer_settles in Ha2.
  assert (Hn' : In n (about (id tm) (fst (detect seen1 (timers b)))))
    by (apply in_about; split; [symmetry; exact Htm|exact Hn]).
  rewrite Ha2 in Hn'. destruct Hn'.
Qed.

Lemma detector_pass_settles_witness :
  fst (detector_pass two_tables) = [Finished "t3"; Threshold "b" 300] /\
  fst (detector_pass (snd (detector_pass two_tables))) = [].
Proof.
  split; [vm_compute; reflexivity|].
  apply (detector_pass_settles two_tables). cbn. distinct_ids.
Defined.
